(** * bup helpers: the connection protocol and filesystem timestamps

    A shallow embedding of [lib/bup/helpers.py]: the [FSTime] timestamp
    class, the [stat_result] factory, the blocking writer [_hard_write],
    the line generator [linereader] and the [Conn] class, followed by the
    properties established about them.

    Python integers are unbounded, so they are embedded as [Z]; Python 2's
    [/] and [%] on integers round towards minus infinity, which is what
    [Z.div] and [Z.modulo] do for a positive divisor.  Python 2 [str]
    values are byte strings and are embedded as [string]. *)

From Stdlib Require Import ZArith List String Ascii Bool Lia Floats.
From Stdlib Require Import DecimalString.
Import ListNotations.

Local Open Scope Z_scope.

(** ** Python values and exceptions *)

Module Py.

(** Exception messages.  The second form keeps the argument of a
    ['... %r' % rl] format apart from the text around it. *)
Inductive message : Type :=
| Msg (text : string)
| MsgExpectedOk (rl : string)    (* 'expected "ok", got %r' % rl *)
| MsgErrno (errno : Z).          (* the text of an errno *)

Inductive exn : Type :=
| Exception (m : message)
| IOError (m : message)
| OSError (errno : Z)
| UnboundLocalError (name : string)
| TypeError
| AttributeError
| ValueError.

(** A computation over a mutable state [S]: it returns or raises, and
    its effects on the state persist either way. *)
Definition M (S A : Type) : Type := S -> (exn + A) * S.

Definition ret {S A : Type} (a : A) : M S A := fun s => (inr a, s).

Definition raise {S A : Type} (e : exn) : M S A := fun s => (inl e, s).

Definition bind {S A B : Type} (m : M S A) (k : A -> M S B) : M S B :=
  fun s =>
    match m s with
    | (inl e, s') => (inl e, s')
    | (inr a, s') => k a s'
    end.

(** [s[:-1]]: everything but the last character. *)
Fixpoint slice_to_last (s : string) : string :=
  match s with
  | EmptyString => EmptyString
  | String c EmptyString => EmptyString
  | String c r => String c (slice_to_last r)
  end.

(** [s[n:]]: [s] without its first [n] characters. *)
Fixpoint slice_from (n : nat) (s : string) : string :=
  match n, s with
  | O, _ => s
  | S n', EmptyString => EmptyString
  | S n', String _ r => slice_from n' r
  end.

(** [s[:n]]: the first [n] characters of [s]. *)
Fixpoint slice_to (n : nat) (s : string) : string :=
  match n, s with
  | O, _ => EmptyString
  | S n', EmptyString => EmptyString
  | S n', String c r => String c (slice_to n' r)
  end.

(** [s.startswith(p)]. *)
Definition startswith (s p : string) : bool := String.prefix p s.

(** The truth value of a string: [not s] holds of the empty string only. *)
Definition not_ (s : string) : bool :=
  match s with
  | EmptyString => true
  | String _ _ => false
  end.

End Py.

Notation "x <- m ;; k" := (Py.bind m (fun x => k))
  (at level 61, m at next level, right associativity).

(** ** FSTime: filesystem timestamps *)

Module FSTime.

(** An instance of the class as it is defined when [_helpers.lstat] is
    available: [_value] is an integer count of nanoseconds. *)
Record t : Type := Build { _value : Z }.


Definition from_timespec (timespec : Z * Z) : t :=
  {| _value := fst timespec * 10 ^ 9 + snd timespec |}.

Definition from_stat_time (stat_time : Z * Z) : t :=
  from_timespec stat_time.

(** "Return a (s, ns) pair: -1.5s -> (-1, -10**9 / 2)." *)
Definition secs_nsecs (self : t) : Z * Z :=
  if _value self >=? 0
  then (_value self / 10 ^ 9, _value self mod 10 ^ 9)
  else
    let abs_val := - _value self in
    (- (abs_val / 10 ^ 9), - (abs_val mod 10 ^ 9)).

(** "Return (s, ns) where ns is always non-negative". *)
Definition to_timespec (self : t) : Z * Z :=
  let s_ns := secs_nsecs self in
  if (fst s_ns >? 0) || (snd s_ns >=? 0)
  then s_ns
  else (fst s_ns - 1, 10 ^ 9 + snd s_ns).

End FSTime.

(** ** stat_result: normalised file metadata *)

Module Stat.

(** The values that reach [FSTime.from_stat_time]: what a platform stat
    call gives as a time (an integer or float count of seconds from
    [os.stat], a (seconds, nanoseconds) pair of integers from the C
    helper) and the [FSTime] instances of either definition of the
    class. *)
Inductive pyval : Type :=
| PInt (n : Z)
| PFloat (f : float)
| PTimespec (s ns : Z)
| PFSTime (ts : FSTime.t)             (* class FSTime, integer nanoseconds *)
| PFSTimeFloat (_value : pyval).      (* class FSTime, native seconds *)

(** [os.stat_result], read by attribute. *)
Record os_stat_result : Type := {
  os_st_mode : Z; os_st_ino : Z; os_st_dev : Z; os_st_nlink : Z;
  os_st_uid : Z; os_st_gid : Z; os_st_rdev : Z; os_st_size : Z;
  os_st_atime : pyval; os_st_mtime : pyval; os_st_ctime : pyval
}.

(** The two native stat payloads: the 11-tuple of the C helper and the
    structure of [os.stat]. *)
Inductive stat_rep : Type :=
| StatTuple (mode ino dev nlink uid gid rdev size : Z)
            (atime mtime ctime : pyval)
| StatStruct (st : os_stat_result).

Record stat_result : Type := {
  st_mode : Z; st_ino : Z; st_dev : Z; st_nlink : Z;
  st_uid : Z; st_gid : Z; st_rdev : Z; st_size : Z;
  st_atime : pyval; st_mtime : pyval; st_ctime : pyval
}.

Section Platform.

(** The two facts about the platform that the module reads from the C
    extension [bup._helpers]: whether [_helpers.lstat] exists, which
    selects the definition of [FSTime], and
    [_helpers._have_ns_fs_timestamps]. *)
Variable lstat : bool.
Variable _have_ns_fs_timestamps : bool.

(** [FSTime.from_timespec] of the integer class indexes its argument:
    a float or an integer is not subscriptable, an [FSTime] instance
    has no [__getitem__]. *)
Definition from_timespec (timespec : pyval) : Py.exn + pyval :=
  match timespec with
  | PTimespec s ns => inr (PFSTime (FSTime.from_timespec (s, ns)))
  | PInt _ | PFloat _ => inl Py.TypeError
  | PFSTime _ | PFSTimeFloat _ => inl Py.AttributeError
  end.

(** [FSTime.from_stat_time], of whichever class is defined. *)
Definition from_stat_time (stat_time : pyval) : Py.exn + pyval :=
  if lstat
  then from_timespec stat_time
  else inr (PFSTimeFloat stat_time).

Definition try {A B : Type} (r : Py.exn + A) (k : A -> Py.exn + B)
  : Py.exn + B :=
  match r with
  | inl e => inl e
  | inr a => k a
  end.

(** The statements after the [if]/[else] of [from_stat_rep]. *)
Definition wrap_times (mode ino dev nlink uid gid rdev size : Z)
           (atime mtime ctime : pyval) : Py.exn + stat_result :=
  try (from_stat_time atime) (fun a =>
  try (from_stat_time mtime) (fun m =>
  try (from_stat_time ctime) (fun c =>
  inr {| st_mode := mode; st_ino := ino; st_dev := dev;
         st_nlink := nlink; st_uid := uid; st_gid := gid;
         st_rdev := rdev; st_size := size;
         st_atime := a; st_mtime := m; st_ctime := c |}))).

Definition from_stat_rep (st : stat_rep) : Py.exn + stat_result :=
  if _have_ns_fs_timestamps
  then
    match st with
    | StatTuple mode ino dev nlink uid gid rdev size atime mtime ctime =>
        wrap_times mode ino dev nlink uid gid rdev size atime mtime ctime
    | StatStruct _ => inl Py.ValueError   (* ten values for eleven names *)
    end
  else
    match st with
    | StatStruct st =>
        try (from_stat_time (os_st_atime st)) (fun atime =>
        try (from_stat_time (os_st_mtime st)) (fun mtime =>
        try (from_stat_time (os_st_ctime st)) (fun ctime =>
        wrap_times (os_st_mode st) (os_st_ino st) (os_st_dev st)
                   (os_st_nlink st) (os_st_uid st) (os_st_gid st)
                   (os_st_rdev st) (os_st_size st) atime mtime ctime)))
    | StatTuple _ _ _ _ _ _ _ _ _ _ _ => inl Py.AttributeError
    end.

End Platform.

(** [approx_secs] of the native-seconds class, [return self._value];
    [None] on a value that is not an instance of that class. *)
Definition approx_secs (self : pyval) : option pyval :=
  match self with
  | PFSTimeFloat _value => Some _value
  | _ => None
  end.

(** A payload of [os.stat] on a platform without the C helper. *)
Definition coarse_payload : stat_rep :=
  StatStruct {| os_st_mode := 33188; os_st_ino := 42; os_st_dev := 2049;
                os_st_nlink := 1; os_st_uid := 1000; os_st_gid := 1000;
                os_st_rdev := 0; os_st_size := 12;
                os_st_atime := PFloat 1.5%float;
                os_st_mtime := PFloat 2.5%float;
                os_st_ctime := PFloat 3.5%float |}.

End Stat.

(** ** _hard_write: blocking writes to a descriptor *)

Module HardWrite.
Import Py.
Local Open Scope string_scope.

(** What the kernel answers to one [os.write]: it takes at most [n]
    bytes of the buffer, or fails with an errno. *)
Inductive write_reply : Type :=
| Accepts (n : nat)
| Fails (errno : Z).

(** A descriptor as the loop sees it: for each round of the loop,
    whether [select] reports it writable and what [os.write] answers. *)
Record descriptor : Type := {
  writable : nat -> bool;
  reply : nat -> write_reply
}.

(** The state outside the program: the rounds made so far and the
    bytes the descriptor has taken. *)
Record os : Type := { clock : nat; wire : string }.

Definition EAGAIN : Z := 11.

(** [select.select([], [fd], [], None)]: the middle list of the result
    is non-empty exactly when the descriptor is writable. *)
Definition select (fd : descriptor) : M os bool :=
  fun w => (inr (writable fd (clock w)), w).

(** [os.write(fd, buf)]: the number of bytes taken, or [OSError]. *)
Definition os_write (fd : descriptor) (buf : string) : M os nat :=
  fun w =>
    match reply fd (clock w) with
    | Accepts n =>
        let sz := Nat.min n (String.length buf) in
        (inr sz, {| clock := S (clock w);
                    wire := wire w ++ slice_to sz buf |})
    | Fails errno =>
        (inl (OSError errno), {| clock := S (clock w); wire := wire w |})
    end.

(** How a run of the loop stands after a number of rounds: it has
    returned, it has raised, or it is still in the loop with the given
    [buf] and [sz] ([None] while the local [sz] is unbound). *)
Inductive outcome : Type :=
| Returned (w : os)
| Raised (e : exn) (w : os)
| Looping (buf : string) (sz : option nat) (w : os).

(** [rounds] bounds the number of iterations of [while buf:].  The
    value of [os.write] is a count, so [assert(sz >= 0)] holds whenever
    [sz] is bound. *)
Fixpoint _hard_write_loop (rounds : nat) (fd : descriptor)
         (buf : string) (sz : option nat) (w : os) : outcome :=
  if not_ buf then Returned w else
  match rounds with
  | O => Looping buf sz w
  | S rounds' =>
      match select fd w with
      | (inl e, w1) => Raised e w1
      | (inr false, w1) =>
          Raised (IOError (Msg "select(fd) returned without being writable")) w1
      | (inr true, w1) =>
          match os_write fd buf w1 with
          | (inr n, w2) =>
              _hard_write_loop rounds' fd (slice_from n buf) (Some n) w2
          | (inl (OSError errno), w2) =>
              if negb (errno =? EAGAIN)%Z then Raised (OSError errno) w2
              else
                match sz with
                | None => Raised (UnboundLocalError "sz") w2
                | Some n =>
                    _hard_write_loop rounds' fd (slice_from n buf) sz w2
                end
          | (inl e, w2) => Raised e w2
          end
      end
  end.

Definition _hard_write (rounds : nat) (fd : descriptor) (buf : string)
  : os -> outcome :=
  _hard_write_loop rounds fd buf None.

Definition boot : os := {| clock := O; wire := "" |}.

(** A descriptor that is always writable and takes nothing. *)
Definition stuck_fd : descriptor :=
  {| writable := fun _ => true; reply := fun _ => Accepts 0 |}.

(** A descriptor that is never writable. *)
Definition closed_fd : descriptor :=
  {| writable := fun _ => false; reply := fun _ => Accepts 1 |}.

(** A non-blocking descriptor that takes two bytes at a time. *)
Definition slow_fd : descriptor :=
  {| writable := fun _ => true; reply := fun _ => Accepts 2 |}.

(** A descriptor that answers every [os.write] with [EAGAIN]. *)
Definition full_fd : descriptor :=
  {| writable := fun _ => true; reply := fun _ => Fails EAGAIN |}.

(** A descriptor that takes two bytes, then answers [EAGAIN] once. *)
Definition busy_fd : descriptor :=
  {| writable := fun _ => true;
     reply := fun k => match k with
                       | 1%nat => Fails EAGAIN
                       | _ => Accepts 2
                       end |}.

End HardWrite.

(** ** File objects *)

Module File.
Import Py.
Local Open Scope string_scope.

Definition LF : ascii := "010"%char.

(** The one-character string ['\n']. *)
Definition nl : string := String LF "".

(** An input stream is the sequence of strings that its successive
    [readline()] calls return; once they are used up, [readline()]
    returns [''], the end of the stream. *)
Definition input : Type := list string.

Definition readline (f : input) : string * input :=
  match f with
  | [] => ("", [])
  | line :: f' => (line, f')
  end.

(** What [readline()] returns, call after call, on a file object whose
    content is [content]: each line with its newline, and a last
    unterminated line if there is one. *)
Fixpoint of_content (content : string) : input :=
  match content with
  | "" => []
  | String c rest =>
      if Ascii.eqb c LF then String c "" :: of_content rest
      else
        match of_content rest with
        | [] => [String c ""]
        | line :: f => String c line :: f
        end
  end.

(** An output stream: an object with [write] and [flush]. *)
Class Out (O : Type) : Type := {
  write : string -> M O unit;
  flush : M O unit
}.

(** A buffered pipe that takes whatever it is given. *)
Record pipe : Type := { pending : string; delivered : string }.

#[global] Instance pipe_out : Out pipe := {
  write data := fun p =>
    (inr tt, {| pending := pending p ++ data; delivered := delivered p |});
  flush := fun p =>
    (inr tt, {| pending := ""; delivered := delivered p ++ pending p |})
}.

(** An unbuffered stream over a non-blocking descriptor that answers
    its first [refusals] writes with [EAGAIN]. *)
Record nonblocking : Type := { refusals : nat; received : string }.

#[global] Instance nonblocking_out : Out nonblocking := {
  write data := fun o =>
    match refusals o with
    | S k => (inl (IOError (MsgErrno HardWrite.EAGAIN)),
              {| refusals := k; received := received o |})
    | O => (inr tt, {| refusals := O; received := received o ++ data |})
    end;
  flush := ret tt
}.

End File.

(** ** linereader and re.sub *)

Section Lines.
Import Py.
Local Open Scope string_scope.

(** "Generate a list of input lines from 'f' without terminating
    newlines."  Each element is a yielded value with the state of [f]
    at that [yield]; the match on [f] is [line = f.readline()]. *)
Fixpoint linereader (f : File.input) : list (string * File.input) :=
  match f with
  | [] => []
  | line :: f' =>
      if not_ line then []
      else (slice_to_last line, f') :: linereader f'
  end.

(** The class [\s] of the [re] module on a byte string: space, tab,
    newline, vertical tab, form feed, carriage return. *)
Definition isspace (c : ascii) : bool :=
  match nat_of_ascii c with
  | 9%nat | 10%nat | 11%nat | 12%nat | 13%nat | 32%nat => true
  | _ => false
  end.

(** [re.sub(r'\s+', ' ', s)], scanning from the left: a match of [\s+]
    starts at a whitespace character outside a match and runs on while
    whitespace follows; [in_match] tells that the match is under way. *)
Fixpoint sub_spaces (in_match : bool) (s : string) : string :=
  match s with
  | "" => ""
  | String c r =>
      if isspace c
      then if in_match then sub_spaces true r
           else String " " (sub_spaces true r)
      else String c (sub_spaces false r)
  end.

Definition re_sub_spaces (s : string) : string := sub_spaces false s.

(** The same in the words of the specification: the string is cut into
    its maximal runs of whitespace and of other characters, and every
    run of whitespace becomes a single space. *)
Definition run_is_space (run : string) : bool :=
  match run with
  | "" => false
  | String d _ => isspace d
  end.

Fixpoint runs (s : string) : list string :=
  match s with
  | "" => []
  | String c r =>
      match runs r with
      | [] => [String c ""]
      | run :: rs =>
          if Bool.eqb (isspace c) (run_is_space run)
          then String c run :: rs
          else String c "" :: run :: rs
      end
  end.

Definition flatten (l : list string) : string :=
  fold_right String.append "" l.

Definition collapse_run (run : string) : string :=
  if run_is_space run then " " else run.

Definition collapse_runs (s : string) : string :=
  flatten (map collapse_run (runs s)).

(** Neighbouring runs are of different kinds, so no run can be made
    longer. *)
Fixpoint alternating (l : list string) : bool :=
  match l with
  | a :: (b :: _) as rest =>
      negb (Bool.eqb (run_is_space a) (run_is_space b)) && alternating rest
  | _ => true
  end.

(** Whether every character of [s] satisfies [p]. *)
Fixpoint all_chars (p : ascii -> bool) (s : string) : bool :=
  match s with
  | "" => true
  | String c r => p c && all_chars p r
  end.

(** A string that holds no newline: one line of text. *)
Definition one_line (s : string) : bool :=
  all_chars (fun c => negb (Ascii.eqb c File.LF)) s.

(** Every run is non-empty and all of one kind. *)
Definition uniform (run : string) : Prop :=
  run <> "" /\
  all_chars (fun c => Bool.eqb (isspace c) (run_is_space run)) run = true.

(** A line that is neither of the two sentinels. *)
Definition no_sentinel (l : string) : Prop :=
  l <> "ok" /\ Py.startswith l "error " = false.

(** [k] blank lines. *)
Fixpoint blank_lines (k : nat) : string :=
  match k with
  | O => ""
  | S k' => File.nl ++ blank_lines k'
  end.

End Lines.

(** ** Conn: the client-server protocol *)

Module Conn.
Import Py.
Local Open Scope string_scope.

(** [class NotOk(Exception)], with its argument. *)
Inductive NotOk : Type := MkNotOk (args : string).

Record t (O : Type) : Type := Build { inp : File.input; outp : O }.
Arguments Build {O} _ _.
Arguments inp {O} _.
Arguments outp {O} _.

(** [Exception('server exited unexpectedly; see errors above')]. *)
Definition server_exited : exn :=
  Exception (Msg "server exited unexpectedly; see errors above").

Section Methods.
Context {O : Type} `{File.Out O}.

(** Run a method of [self.outp]. *)
Definition on_outp {A : Type} (m : M O A) : M (t O) A :=
  fun self =>
    let (r, o) := m (outp self) in
    (r, {| inp := inp self; outp := o |}).

(** "Read from input stream until a newline is found." *)
Definition readline : M (t O) string :=
  _ <- on_outp File.flush ;;
  fun self =>
    let (line, f) := File.readline (inp self) in
    (inr line, {| inp := f; outp := outp self |}).

(** "Write 'data' to output stream." *)
Definition write (data : string) : M (t O) unit :=
  on_outp (File.write data).

(** "Indicate end of output from last sent command." *)
Definition ok : M (t O) unit :=
  write (File.nl ++ "ok" ++ File.nl).

(** "Indicate server error to the client." *)
Definition error (s : string) : M (t O) unit :=
  let s := re_sub_spaces s in
  write (File.nl ++ "error " ++ s ++ File.nl).

(** The [for] loop of [_check_ok] over the generator [g], and the
    [raise] after it; [f] is the state of the input stream. *)
Fixpoint for_rl (onempty : string -> exn + unit)
         (g : list (string * File.input)) (f : File.input)
  : (exn + option NotOk) * File.input :=
  match g with
  | [] =>
      (inl server_exited, snd (File.readline f))
  | (rl, f') :: g' =>
      if not_ rl then for_rl onempty g' f'
      else if rl =? "ok" then (inr None, f')
      else if startswith rl "error "
      then (inr (Some (MkNotOk (slice_from 6 rl))), f')
      else
        match onempty rl with
        | inl e => (inl e, f')
        | inr _ => for_rl onempty g' f'
        end
  end.

Definition _check_ok (onempty : string -> exn + unit)
  : M (t O) (option NotOk) :=
  _ <- on_outp File.flush ;;
  fun self =>
    let (r, f) := for_rl onempty (linereader (inp self)) (inp self) in
    (r, {| inp := f; outp := outp self |}).

(** "Remove all data for the current command from input stream." *)
Definition drain_and_check_ok : M (t O) (option NotOk) :=
  let onempty (rl : string) : exn + unit := inr tt in
  _check_ok onempty.

(** "Verify that server action completed successfully." *)
Definition check_ok : M (t O) (option NotOk) :=
  let onempty (rl : string) : exn + unit :=
    inl (Exception (MsgExpectedOk rl)) in
  _check_ok onempty.

End Methods.

End Conn.

(** ** Sample connections *)

Module Sample.
Import File.
Local Open Scope string_scope.

Definition idle : pipe := {| pending := ""; delivered := "" |}.

(** A connection whose peer has written [content] and closed. *)
Definition reading (content : string) : Conn.t pipe :=
  Conn.Build (of_content content) idle.

(** A connection whose output refuses one write. *)
Definition refusing : Conn.t nonblocking :=
  Conn.Build [] {| refusals := 1; received := "" |}.

End Sample.

(** ** More string operations of Python *)

Module PyStr.
Import Py.
Local Open Scope string_scope.

(** [s.endswith(p)]. *)
Definition endswith (s p : string) : bool :=
  (String.length p <=? String.length s)%nat &&
  (slice_from (String.length s - String.length p) s =? p).

(** [n] spaces. *)
Fixpoint spaces (n : nat) : string :=
  match n with
  | O => ""
  | S n' => String " " (spaces n')
  end.

(** ['%-*s' % (width, s)]: [s] padded on the right to [width] columns. *)
Definition ljust (width : nat) (s : string) : string :=
  s ++ spaces (width - String.length s).

(** ['%d' % n]. *)
Definition str_of_int (n : Z) : string :=
  NilZero.string_of_int (Z.to_int n).

End PyStr.

(** ** Small helpers *)

Module Util.
Import Py PyStr.
Local Open Scope string_scope.

(** "Append "/" to 's' if it doesn't aleady end in "/"." *)
Definition slashappend (s : string) : string :=
  if negb (not_ s) && negb (endswith s "/")
  then s ++ "/"
  else s.

(** The elements that [count] is given: integers, or objects that do
    not add to an integer (strings, tuples, [None]), told apart by a
    tag. *)
Inductive item : Type :=
| Int (n : Z)
| Obj (tag : nat).

(** [lambda x, y: x + 1]. *)
Definition plus_one (x y : item) : exn + item :=
  match x with
  | Int n => inr (Int (n + 1))
  | Obj _ => inl TypeError
  end.

(** The loop of [reduce(function, iterable)] from the value [acc]. *)
Fixpoint reduce_from (function : item -> item -> exn + item)
         (acc : item) (l : list item) : exn + item :=
  match l with
  | [] => inr acc
  | y :: l' =>
      match function acc y with
      | inl e => inl e
      | inr acc' => reduce_from function acc' l'
      end
  end.

(** [reduce] without an initial value: the first element starts the
    fold, and an empty sequence is a [TypeError]. *)
Definition reduce (function : item -> item -> exn + item) (l : list item)
  : exn + item :=
  match l with
  | [] => inl TypeError
  | x :: l' => reduce_from function x l'
  end.

(** "Count the number of elements in an iterator." *)
Definition count (l : list item) : exn + item :=
  reduce plus_one l.

End Util.

(** ** chunkyreader *)

Module Chunky.
Import Py PyStr.
Local Open Scope string_scope.

(** A file object open for reading, as the bytes it has left:
    [f.read(n)] returns the next [n] bytes, or all that is left when
    fewer remain, and [''] at the end. *)
Definition read (n : Z) (f : string) : string * string :=
  (slice_to (Z.to_nat n) f, slice_from (Z.to_nat n) f).

(** How the generator ends: it is exhausted, it raises, or the bound on
    the number of rounds was reached first. *)
Inductive ending : Type :=
| Stop
| Raise (e : exn)
| More.

(** The loop of [chunkyreader] for a [count]: the chunks yielded, how
    the generator ends, and the file as it leaves it. *)
Fixpoint counted (rounds : nat) (f : string) (count : Z)
  : list string * ending * string :=
  if negb (count >? 0)%Z then ([], Stop, f) else
  match rounds with
  | O => ([], More, f)
  | S rounds' =>
      let (b, f') := read (Z.min count 65536) f in
      if not_ b
      then ([],
            Raise (IOError (Msg ("EOF with " ++ str_of_int count
                                   ++ " bytes remaining"))),
            f')
      else
        let '(chunks, e, f'') :=
          counted rounds' f' (count - Z.of_nat (String.length b)) in
        (b :: chunks, e, f'')
  end.

(** The loop for [count = None]: read until the end of the file. *)
Fixpoint uncounted (rounds : nat) (f : string)
  : list string * ending * string :=
  match rounds with
  | O => ([], More, f)
  | S rounds' =>
      let (b, f') := read 65536 f in
      if not_ b then ([], Stop, f')
      else
        let '(chunks, e, f'') := uncounted rounds' f' in
        (b :: chunks, e, f'')
  end.

(** "Generate a list of chunks of data read from 'f'." *)
Definition chunkyreader (rounds : nat) (f : string) (count : option Z)
  : list string * ending * string :=
  match count with
  | Some count => counted rounds f count
  | None => uncounted rounds f
  end.

End Chunky.

(** ** log and add_error *)

Module Log.
Import Py PyStr HardWrite.
Local Open Scope string_scope.

Section Streams.
Context {O : Type} `{File.Out O}.




End Streams.

End Log.

(** ** unlink and mkdirp *)

Module Fs.
Import Py.

Definition ENOENT : Z := 2.
Definition EEXIST : Z := 17.

Section Os.

(** The file system and the two calls of the [os] module, which belong
    to the platform. *)
Variable fs : Type.
Variable os_unlink : string -> M fs unit.
Variable os_makedirs : string -> option Z -> M fs unit.

(** "Delete a file at path 'f' if it currently exists."  The handler
    has no [else]: the exception ends there whatever its errno. *)
Definition unlink (f : string) : M fs unit :=
  fun w =>
    match os_unlink f w with
    | (inl (OSError errno), w') =>
        if (errno =? ENOENT)%Z then (inr tt, w') else (inr tt, w')
    | r => r
    end.

(** "Recursively create directories on path 'd'."  [if mode:] holds of
    a mode that is neither [None] nor zero. *)
Definition mkdirp (d : string) (mode : option Z) : M fs unit :=
  fun w =>
    let call :=
      match mode with
      | Some m => if (m =? 0)%Z then os_makedirs d None
                  else os_makedirs d (Some m)
      | None => os_makedirs d None
      end in
    match call w with
    | (inl (OSError errno), w') =>
        if (errno =? EEXIST)%Z then (inr tt, w')
        else (inl (OSError errno), w')
    | r => r
    end.

End Os.

End Fs.

(** ** lutime *)

Module Utime.


Section Helpers.

(** Whether the C extension has [utimensat], and its two constants. *)
Variable have_utimensat : bool.
Variable AT_FDCWD : Z.
Variable AT_SYMLINK_NOFOLLOW : Z.


End Helpers.

End Utime.

(** ** What a run of _hard_write conserves *)

Module HardWriteInv.
Import Py HardWrite.
Local Open Scope string_scope.


End HardWriteInv.

(** ** columnate *)

Module Columns.
Import Py PyStr.
Local Open Scope string_scope.

(** [max(len(s) for s in l)]. *)
Definition max_len (l : list string) : nat :=
  fold_right (fun s m => Nat.max (String.length s) m) 0%nat l.

(** [while len(l) % ncols: l.append('')]; the loop appends fewer than
    [ncols] strings, which bounds its rounds. *)
Fixpoint pad_loop (rounds ncols : nat) (l : list string) : list string :=
  if (List.length l mod ncols =? 0)%nat then l else
  match rounds with
  | O => l
  | S rounds' => pad_loop rounds' ncols (l ++ [""])%list
  end.

(** The numbers of [range(start, stop, step)] for a positive [step];
    there are at most [stop] of them. *)
Fixpoint range_loop (bound start stop step : nat) : list nat :=
  match bound with
  | O => []
  | S bound' =>
      if (start <? stop)%nat
      then start :: range_loop bound' (start + step) stop step
      else []
  end.

(** [range(0, stop, step)], a [ValueError] when [step] is zero. *)
Definition range (stop step : nat) : exn + list nat :=
  match step with
  | O => inl ValueError
  | S _ => inr (range_loop stop 0 stop step)
  end.

(** [l[s:e]]. *)
Definition slice (s e : nat) (l : list string) : list string :=
  firstn (e - s) (skipn s l).

Definition nonempty (c : list string) : bool :=
  match c with
  | [] => false
  | _ :: _ => true
  end.

(** [zip] of a first sequence and of others: one tuple for each
    position that every sequence has. *)
Fixpoint zip_loop (first : list string) (others : list (list string))
  : list (list string) :=
  match first with
  | [] => []
  | x :: first' =>
      if forallb nonempty others
      then (x :: map (hd "") others) :: zip_loop first' (map (@tl string) others)
      else []
  end.

(** [zip] of all the columns, each one an argument. *)
Definition zip_star (cols : list (list string)) : list (list string) :=
  match cols with
  | [] => []
  | first :: others => zip_loop first others
  end.

(** One line of the table: the prefix and the cells of the row, each
    padded to [width] columns. *)
Definition line (prefix : string) (width : nat) (row : list string)
  : string :=
  prefix ++ flatten (map (ljust width) row) ++ File.nl.

(** "Format elements of 'l' in columns with 'prefix' leading each
    line."  [tty_width] is the value of [tty_width()], which
    [bup.options] computes. *)
Definition columnate (tty_width : Z) (l : list string) (prefix : string)
  : exn + string :=
  match l with
  | [] => inr ""
  | _ :: _ =>
      let clen := Z.of_nat (max_len l) in
      let ncols :=
        ((tty_width - Z.of_nat (String.length prefix)) / (clen + 2))%Z in
      let '(ncols, clen) :=
        if (ncols <=? 1)%Z then (1%Z, 0%Z) else (ncols, clen) in
      let l := pad_loop (Z.to_nat ncols) (Z.to_nat ncols) l in
      let rows := (List.length l / Z.to_nat ncols)%nat in
      match range (List.length l) rows with
      | inl e => inl e
      | inr starts =>
          let cols := map (fun s => slice s (s + rows) l) starts in
          inr (fold_left
                 (fun out row => out ++ line prefix (Z.to_nat (clen + 2)) row)
                 (zip_star cols) "")
      end
  end.

End Columns.

(** ** Two ends of a connection *)

Module Wire.
Local Open Scope string_scope.

(** What the peer of [srv] finds to read once [srv] has flushed its
    output, as the values of its [readline()]. *)
Definition peer_reads (srv : Conn.t File.pipe) : File.input :=
  File.of_content (File.delivered (snd (File.flush (Conn.outp srv)))).

(** A string in which whitespace occurs only as single spaces;
    [after_space] tells that the character before was a space. *)
Fixpoint tidy (after_space : bool) (s : string) : bool :=
  match s with
  | "" => true
  | String c r =>
      if isspace c
      then Ascii.eqb c " " && negb after_space && tidy true r
      else tidy false r
  end.

End Wire.

(** * Properties *)

(** ** FSTime *)

Module FSTimeFacts.
Import FSTime.

Lemma secs_nsecs_sum (self : t) :
  fst (secs_nsecs self) * 10 ^ 9 + snd (secs_nsecs self) = _value self.
Proof.
  unfold secs_nsecs.
  destruct (Z.geb_spec (_value self) 0) as [Hge | Hlt]; cbn [fst snd].
  - pose proof (Z.div_mod (_value self) (10 ^ 9)). lia.
  - pose proof (Z.div_mod (- _value self) (10 ^ 9)). lia.
Qed.

(** The nanoseconds of [secs_nsecs] carry the sign of the instant and
    stay below a second in absolute value. *)
Lemma secs_nsecs_range (self : t) :
  (0 <= _value self ->
   0 <= snd (secs_nsecs self) < 10 ^ 9 /\ 0 <= fst (secs_nsecs self)) /\
  (_value self < 0 ->
   - 10 ^ 9 < snd (secs_nsecs self) <= 0 /\ fst (secs_nsecs self) <= 0).
Proof.
  unfold secs_nsecs.
  destruct (Z.geb_spec (_value self) 0) as [Hge | Hlt]; cbn [fst snd];
    split; intros Hs; try lia.
  - pose proof (Z.mod_pos_bound (_value self) (10 ^ 9) ltac:(lia)).
    pose proof (Z.div_pos (_value self) (10 ^ 9) ltac:(lia) ltac:(lia)).
    lia.
  - pose proof (Z.mod_pos_bound (- _value self) (10 ^ 9) ltac:(lia)).
    pose proof (Z.div_pos (- _value self) (10 ^ 9) ltac:(lia) ltac:(lia)).
    lia.
Qed.

(** C1.  For every integer nanosecond count [n], negative ones
    included, and every (seconds, nanoseconds) pair that represents it,
    [from_timespec] followed by [to_timespec] gives a pair [(s, ns)]
    with [0 <= ns < 10^9] and [s * 10^9 + ns = n]; when the pair of
    [secs_nsecs] has negative nanoseconds, the result is that pair with
    the seconds decremented and [10^9] carried into the nanoseconds. *)
Theorem to_timespec_of_from_timespec (n s0 ns0 : Z) :
  s0 * 10 ^ 9 + ns0 = n ->
  let self := from_timespec (s0, ns0) in
  let s := fst (to_timespec self) in
  let ns := snd (to_timespec self) in
  0 <= ns < 10 ^ 9 /\
  s * 10 ^ 9 + ns = n /\
  (snd (secs_nsecs self) < 0 ->
   s = fst (secs_nsecs self) - 1 /\ ns = 10 ^ 9 + snd (secs_nsecs self)).
Proof.
  intros Hn self s ns.
  assert (Hv : _value self = n) by (subst self; cbn; exact Hn).
  pose proof (secs_nsecs_sum self) as Hsum.
  destruct (secs_nsecs_range self) as [Hpos Hneg].
  subst s ns. unfold to_timespec.
  destruct (secs_nsecs self) as [a b] eqn:Hab; cbn [fst snd] in *.
  destruct (Z.gtb_spec a 0) as [Ha | Ha];
    destruct (Z.geb_spec b 0) as [Hb | Hb]; cbn [orb fst snd]; lia.
Qed.

Lemma to_timespec_of_from_timespec_witness :
  (-2) * 10 ^ 9 + 500000000 = -1500000000 /\
  to_timespec (from_timespec (-2, 500000000)) = (-2, 500000000).
Proof.
  split; [reflexivity | ].
  pose proof (to_timespec_of_from_timespec (-1500000000) (-2) 500000000
                eq_refl) as H.
  cbv zeta in H.
  destruct (to_timespec (from_timespec (-2, 500000000))) as [s ns].
  cbn [fst snd] in H. destruct H as (Hr & Hs & _).
  f_equal; lia.
Defined.

End FSTimeFacts.

(** ** Strings *)

Module StrFacts.
Import Py.
Local Open Scope string_scope.

Lemma app_empty_r (s : string) : s ++ "" = s.
Proof. induction s as [| c s IH]; cbn; [ | rewrite IH ]; reflexivity. Qed.

Lemma app_app (a b c : string) : (a ++ b) ++ c = a ++ (b ++ c).
Proof. induction a as [| x a IH]; cbn; [ | rewrite IH ]; reflexivity. Qed.

(** [buf[:n] + buf[n:] == buf]. *)
Lemma slice_to_slice_from (n : nat) (s : string) :
  slice_to n s ++ slice_from n s = s.
Proof.
  revert s; induction n as [| n IH]; intros [| c s]; cbn; try reflexivity.
  now rewrite IH.
Qed.

Lemma length_slice_from (n : nat) (s : string) :
  String.length (slice_from n s) = (String.length s - n)%nat.
Proof.
  revert s; induction n as [| n IH]; intros [| c s]; cbn; try reflexivity.
  apply IH.
Qed.

(** [(s + c)[:-1] == s]. *)
Lemma slice_to_last_app (s : string) (c : ascii) :
  slice_to_last (s ++ String c "") = s.
Proof.
  induction s as [| x s IH]; [reflexivity | ].
  cbn [append slice_to_last]. rewrite IH.
  destruct s; reflexivity.
Qed.

Lemma startswith_app (p s : string) : startswith (p ++ s) p = true.
Proof.
  unfold startswith. induction p as [| c p IH]; cbn.
  - destruct s; reflexivity.
  - destruct (ascii_dec c c) as [_ | Hne]; [exact IH | now elim Hne].
Qed.

Lemma startswith_inv (s p : string) :
  startswith s p = true -> s = p ++ slice_from (String.length p) s.
Proof.
  unfold startswith. revert s; induction p as [| c p IH]; intros s Hp.
  - reflexivity.
  - destruct s as [| d s]; cbn in Hp; [discriminate | ].
    destruct (ascii_dec c d) as [-> | _]; [ | discriminate].
    cbn. f_equal. apply IH, Hp.
Qed.

Lemma not_empty (s : string) : not_ s = false <-> s <> "".
Proof. destruct s; cbn; split; congruence. Qed.

End StrFacts.

(** ** stat_result *)

Module StatFacts.
Import Stat.

(** C2.  Where the platform has no nanosecond timestamps and [FSTime]
    keeps native seconds, [from_stat_rep] converts each native time
    twice: the time fields are [FSTime] instances whose [_value] is
    itself an [FSTime], not the native time, so [approx_secs] hands
    back an [FSTime] where the single conversion gives the number.
    With the integer class and no nanosecond timestamps the factory
    raises; with both, on the tuple of the C helper, it builds the
    integer [FSTime] of each pair, converting once. *)
Theorem from_stat_rep_converts_twice
        (st : os_stat_result) (a m c : Z * Z) :
  (exists r,
     from_stat_rep false false (StatStruct st) = inr r /\
     st_atime r = PFSTimeFloat (PFSTimeFloat (os_st_atime st)) /\
     st_mtime r = PFSTimeFloat (PFSTimeFloat (os_st_mtime st)) /\
     st_ctime r = PFSTimeFloat (PFSTimeFloat (os_st_ctime st)) /\
     approx_secs (st_atime r) = Some (PFSTimeFloat (os_st_atime st)) /\
     from_stat_time false (os_st_atime st)
       = inr (PFSTimeFloat (os_st_atime st)) /\
     from_stat_time false (os_st_atime st) <> inr (st_atime r)) /\
  from_stat_rep true false coarse_payload = inl Py.TypeError /\
  (exists r,
     from_stat_rep true true
       (StatTuple (os_st_mode st) (os_st_ino st) (os_st_dev st)
                  (os_st_nlink st) (os_st_uid st) (os_st_gid st)
                  (os_st_rdev st) (os_st_size st)
                  (PTimespec (fst a) (snd a)) (PTimespec (fst m) (snd m))
                  (PTimespec (fst c) (snd c))) = inr r /\
     st_atime r = PFSTime (FSTime.from_timespec a) /\
     st_mtime r = PFSTime (FSTime.from_timespec m) /\
     st_ctime r = PFSTime (FSTime.from_timespec c)).
Proof.
  split; [ | split].
  - eexists. split; [reflexivity | ]. cbn.
    repeat (split; [reflexivity | ]).
    intros Heq. injection Heq as Heq.
    assert (Hsz : forall v, v <> PFSTimeFloat v).
    { induction v; intros Hv; try discriminate.
      injection Hv as Hv. now apply IHv. }
    exact (Hsz _ Heq).
  - reflexivity.
  - destruct a, m, c. eexists. split; [reflexivity | ]. cbn. repeat split.
Qed.

End StatFacts.

(** ** _hard_write *)

Module HardWriteFacts.
Import Py HardWrite StrFacts.
Local Open Scope string_scope.

(** A descriptor that stays writable and takes at least one byte at
    every [os.write] gets the whole buffer, in order, within as many
    rounds as the buffer has bytes. *)
Lemma loop_sends_all fd :
  (forall k, writable fd k = true) ->
  (forall k, exists n, reply fd k = Accepts (S n)) ->
  forall rounds buf sz w,
    (String.length buf <= rounds)%nat ->
    exists w',
      _hard_write_loop rounds fd buf sz w = Returned w' /\
      wire w' = wire w ++ buf.
Proof.
  intros Hsel Hrep.
  induction rounds as [| rounds IH]; intros buf sz w Hlen.
  - destruct buf; [ | cbn in Hlen; lia].
    exists w. split; [reflexivity | now rewrite app_empty_r].
  - destruct buf as [| c buf].
    { exists w. split; [reflexivity | now rewrite app_empty_r]. }
    cbn [_hard_write_loop not_]. unfold select, os_write.
    rewrite Hsel.
    destruct (Hrep (clock w)) as [n ->].
    set (k := Nat.min (S n) (String.length (String c buf))).
    edestruct (IH (slice_from k (String c buf)) (Some k)) as (w' & Hrun & Hw).
    { rewrite length_slice_from. subst k. cbn [String.length] in *. lia. }
    exists w'. split; [exact Hrun | ].
    rewrite Hw. cbn [wire].
    now rewrite app_app, slice_to_slice_from.
Qed.

(** A descriptor that stays writable and takes nothing keeps the loop
    going: after any number of rounds the buffer is as it was and the
    descriptor has received nothing more. *)
Lemma loop_no_progress fd :
  (forall k, writable fd k = true) ->
  (forall k, reply fd k = Accepts 0) ->
  forall rounds buf sz w,
    buf <> "" ->
    exists sz' w',
      _hard_write_loop rounds fd buf sz w = Looping buf sz' w' /\
      wire w' = wire w /\ clock w' = (clock w + rounds)%nat.
Proof.
  intros Hsel Hrep.
  induction rounds as [| rounds IH]; intros buf sz w Hbuf.
  - destruct buf; [congruence | ].
    exists sz, w. repeat split. cbn. lia.
  - destruct buf as [| c buf]; [congruence | ].
    cbn [_hard_write_loop not_]. unfold select, os_write.
    rewrite Hsel, Hrep. cbn [Nat.min slice_from slice_to].
    destruct (IH (String c buf) (Some 0%nat)
                 {| clock := S (clock w); wire := wire w ++ "" |} Hbuf)
      as (sz' & w' & Hrun & Hw & Hc).
    exists sz', w'. split; [exact Hrun | ].
    cbn [wire clock] in *. rewrite app_empty_r in Hw. split; [exact Hw | lia].
Qed.

(** A poll that reports the descriptor not writable ends the call. *)
Lemma loop_not_writable rounds fd buf sz w :
  buf <> "" ->
  writable fd (clock w) = false ->
  _hard_write_loop (S rounds) fd buf sz w =
    Raised (IOError (Msg "select(fd) returned without being writable")) w.
Proof.
  intros Hbuf Hsel. destruct buf; [congruence | ].
  cbn [_hard_write_loop not_]. unfold select. now rewrite Hsel.
Qed.


(** What the loop does after [EAGAIN]: [sz] keeps the value of the round
    before, so the bytes that were refused are dropped from [buf] all the
    same; in the first round [sz] is not bound yet. *)
Example hard_write_after_would_block :
  _hard_write 7 busy_fd "abcdefg" boot =
    Returned {| clock := 4; wire := "abefg" |} /\
  _hard_write 7 full_fd "abcdefg" boot =
    Raised (UnboundLocalError "sz") {| clock := 1; wire := "" |}.
Proof. split; reflexivity. Qed.

(** C3, as amended.  [Conn.write] hands [data] to the output stream in
    one [write] call and returns what that call returns, without poll
    or retry.  The loop that polls and retries is [_hard_write]: on a
    descriptor that every poll reports writable and that takes at least
    one byte, possibly fewer than offered, at every [os.write], it
    returns having sent exactly the bytes of the buffer, in order. *)
Theorem write_once_hard_write_sends_all
        (O : Type) (HO : File.Out O) (self : Conn.t O) (data : string)
        (fd : descriptor) (buf : string) (w : os) (rounds : nat) :
  (forall k, writable fd k = true) ->
  (forall k, exists n, reply fd k = Accepts (S n)) ->
  (String.length buf <= rounds)%nat ->
  Conn.write data self =
    (fst (File.write data (Conn.outp self)),
     Conn.Build (Conn.inp self) (snd (File.write data (Conn.outp self)))) /\
  exists w',
    _hard_write rounds fd buf w = Returned w' /\
    wire w' = wire w ++ buf.
Proof.
  intros Hsel Hrep Hlen. split.
  - unfold Conn.write, Conn.on_outp.
    now destruct (File.write data (Conn.outp self)).
  - now apply loop_sends_all.
Qed.

Lemma write_once_hard_write_sends_all_witness :
  Conn.write "abc" (Sample.reading "") =
    (inr tt, Conn.Build [] {| File.pending := "abc"; File.delivered := "" |}) /\
  _hard_write 7 slow_fd "abcdefg" boot =
    Returned {| clock := 4; wire := "abcdefg" |}.
Proof.
  destruct (write_once_hard_write_sends_all
              File.pipe File.pipe_out (Sample.reading "") "abc"
              slow_fd "abcdefg" boot 7)
    as (Hwrite & w' & Hrun & Hwire).
  - reflexivity.
  - intros k. exists 1%nat. reflexivity.
  - cbn. lia.
  - split; [exact Hwrite | reflexivity].
Defined.

(** C3, as stated, fails: an output stream that answers one write with
    a would-block error makes [Conn.write] raise with nothing sent. *)
Lemma write_gives_up_on_would_block :
  Conn.write "abc" Sample.refusing =
    (inl (IOError (MsgErrno EAGAIN)),
     Conn.Build [] {| File.refusals := 0; File.received := "" |}) /\
  ~ (exists self',
       Conn.write "abc" Sample.refusing = (inr tt, self') /\
       File.received (Conn.outp self') = "abc").
Proof.
  split; [reflexivity | ].
  intros (self' & Hrun & _). discriminate Hrun.
Qed.

(** C4, as amended.  On a descriptor that every poll reports writable
    and that takes no byte at any [os.write], the loop neither returns
    nor raises: after any number of rounds it is still running with the
    buffer unchanged and nothing more sent.  A poll that reports the
    descriptor not writable raises [IOError] at once, whatever was
    sent before, without another poll or write. *)
Theorem hard_write_spins_or_raises
        (fd : descriptor) (buf : string) (sz : option nat) (w : os)
        (rounds : nat) :
  buf <> "" ->
  ((forall k, writable fd k = true) ->
   (forall k, reply fd k = Accepts 0) ->
   exists sz' w',
     _hard_write_loop rounds fd buf sz w = Looping buf sz' w' /\
     wire w' = wire w /\ clock w' = (clock w + rounds)%nat) /\
  (writable fd (clock w) = false ->
   _hard_write_loop (S rounds) fd buf sz w =
     Raised (IOError (Msg "select(fd) returned without being writable")) w).
Proof.
  intros Hbuf. split.
  - intros Hsel Hrep. now apply loop_no_progress.
  - intros Hsel. now apply loop_not_writable.
Qed.

Lemma hard_write_spins_or_raises_witness :
  (exists sz' w',
     _hard_write 5 stuck_fd "x" boot = Looping "x" sz' w' /\
     wire w' = "" /\ clock w' = 5%nat) /\
  _hard_write 1 closed_fd "x" boot =
    Raised (IOError (Msg "select(fd) returned without being writable")) boot.
Proof.
  assert (Hx : "x" <> "") by discriminate.
  split.
  - apply (proj1 (hard_write_spins_or_raises stuck_fd "x" None boot 5 Hx));
      reflexivity.
  - apply (proj2 (hard_write_spins_or_raises closed_fd "x" None boot 0 Hx)).
    reflexivity.
Defined.

(** C4, as stated, fails: against the descriptor that is writable and
    takes nothing, no number of rounds ends in an exception. *)
Lemma hard_write_never_raises_when_stuck :
  ~ (exists rounds e w, _hard_write rounds stuck_fd "x" boot = Raised e w).
Proof.
  intros (rounds & e & w & Hrun).
  destruct (loop_no_progress stuck_fd (fun _ => eq_refl) (fun _ => eq_refl)
              rounds "x" None boot ltac:(discriminate))
    as (sz' & w' & Hloop & _).
  unfold _hard_write in Hrun. congruence.
Qed.

End HardWriteFacts.

(** ** linereader and re.sub *)

Module LinesFacts.
Import Py StrFacts.
Local Open Scope string_scope.

Lemma of_content_nonempty (content : string) :
  Forall (fun line => line <> "") (File.of_content content).
Proof.
  induction content as [| c rest IH]; cbn; [constructor | ].
  destruct (Ascii.eqb c File.LF).
  - constructor; [discriminate | exact IH].
  - destruct (File.of_content rest) as [| line f].
    + constructor; [discriminate | constructor].
    + inversion IH; subst. constructor; [discriminate | assumption].
Qed.

(** A file whose content starts with a line of text and its newline
    gives that line at the first [readline()]. *)
Lemma of_content_line (l rest : string) :
  one_line l = true ->
  File.of_content (l ++ File.nl ++ rest) = (l ++ File.nl) :: File.of_content rest.
Proof.
  induction l as [| c l IH]; intros Hl.
  - reflexivity.
  - cbn in Hl. apply andb_prop in Hl as [Hc Hl].
    cbn [append File.of_content].
    apply negb_true_iff in Hc. rewrite Hc.
    now rewrite (IH Hl).
Qed.

Lemma of_content_blank (rest : string) :
  File.of_content (File.nl ++ rest) = File.nl :: File.of_content rest.
Proof. reflexivity. Qed.

Lemma of_content_blank_lines (k : nat) (rest : string) :
  File.of_content (blank_lines k ++ rest) =
    (repeat File.nl k ++ File.of_content rest)%list.
Proof.
  induction k as [| k IH]; [reflexivity | ].
  cbn [blank_lines repeat]. rewrite app_app, of_content_blank.
  now rewrite IH.
Qed.

Lemma linereader_cons (line : string) (f : File.input) :
  line <> "" ->
  linereader (line :: f) = (slice_to_last line, f) :: linereader f.
Proof.
  intros Hl. cbn [linereader].
  now rewrite (proj2 (not_empty line) Hl).
Qed.

(** A line read with its newline is yielded without it. *)
Lemma linereader_line (l : string) (f : File.input) :
  linereader ((l ++ File.nl) :: f) = (l, f) :: linereader f.
Proof.
  rewrite linereader_cons by (destruct l; discriminate).
  unfold File.nl. now rewrite slice_to_last_app.
Qed.

Lemma linereader_values (f : File.input) :
  Forall (fun line => line <> "") f ->
  map fst (linereader f) = map slice_to_last f.
Proof.
  induction 1 as [| line f Hl _ IH]; [reflexivity | ].
  rewrite linereader_cons by exact Hl. cbn. now rewrite IH.
Qed.

(** *** The substitution and the runs *)

Lemma isspace_LF (c : ascii) : isspace c = false -> Ascii.eqb c File.LF = false.
Proof.
  intros Hc. destruct (Ascii.eqb_spec c File.LF) as [-> | _]; [ | reflexivity].
  discriminate Hc.
Qed.

Lemma sub_spaces_one_line (b : bool) (s : string) :
  one_line (sub_spaces b s) = true.
Proof.
  revert b; induction s as [| c s IH]; intros b; [reflexivity | ].
  cbn [sub_spaces]. destruct (isspace c) eqn:Hc.
  - destruct b; [apply IH | ]. cbn. apply IH.
  - unfold one_line in *. cbn [all_chars].
    rewrite (isspace_LF c Hc). cbn. apply IH.
Qed.

Lemma runs_cons (c : ascii) (r : string) :
  runs (String c r) =
    match runs r with
    | [] => [String c ""]
    | run :: rs =>
        if Bool.eqb (isspace c) (run_is_space run)
        then String c run :: rs
        else String c "" :: run :: rs
    end.
Proof. reflexivity. Qed.

Lemma flatten_runs (s : string) : flatten (runs s) = s.
Proof.
  induction s as [| c s IH]; [reflexivity | ].
  rewrite runs_cons. destruct (runs s) as [| run rs].
  - cbn in *. now rewrite <- IH.
  - destruct (Bool.eqb (isspace c) (run_is_space run));
      cbn in *; now rewrite IH.
Qed.

Lemma runs_uniform (s : string) : Forall uniform (runs s).
Proof.
  induction s as [| c s IH]; [constructor | ].
  rewrite runs_cons. destruct (runs s) as [| run rs].
  - constructor; [ | constructor]. split; [discriminate | ].
    cbn. now rewrite Bool.eqb_reflx.
  - inversion IH as [| ? ? [Hne Hall] Hrs]; subst.
    destruct (Bool.eqb (isspace c) (run_is_space run)) eqn:Hk.
    + constructor; [ | exact Hrs]. split; [discriminate | ].
      cbn [all_chars run_is_space]. rewrite Bool.eqb_reflx. cbn.
      apply Bool.eqb_prop in Hk. rewrite Hk. exact Hall.
    + constructor; [ | exact IH]. split; [discriminate | ].
      cbn. now rewrite Bool.eqb_reflx.
Qed.

Lemma runs_alternating (s : string) : alternating (runs s) = true.
Proof.
  induction s as [| c s IH]; [reflexivity | ].
  rewrite runs_cons. destruct (runs s) as [| run rs]; [reflexivity | ].
  destruct (Bool.eqb (isspace c) (run_is_space run)) eqn:Hk.
  - destruct rs as [| run' rs]; [reflexivity | ].
    cbn [alternating] in *. cbn [run_is_space].
    apply Bool.eqb_prop in Hk. now rewrite Hk.
  - cbn [alternating] in *. cbn [run_is_space]. rewrite Hk. exact IH.
Qed.

(** The scan and the runs agree, inside a match as well as outside. *)
Lemma sub_spaces_runs (s : string) :
  sub_spaces false s = collapse_runs s /\
  sub_spaces true s =
    match runs s with
    | [] => ""
    | run :: rs =>
        if run_is_space run then flatten (map collapse_run rs)
        else collapse_runs s
    end.
Proof.
  unfold collapse_runs.
  induction s as [| c s [IHf IHt]]; [split; reflexivity | ].
  rewrite runs_cons. cbn [sub_spaces].
  destruct (runs s) as [| run rs].
  - cbn in IHf, IHt. rewrite IHf, IHt.
    unfold collapse_run. cbn. destruct (isspace c); split; reflexivity.
  - assert (Hhead : forall tail, collapse_run (String c tail) =
                                 if isspace c then " " else String c tail)
      by reflexivity.
    rewrite IHf, IHt. cbn [map flatten fold_right] in *.
    destruct (isspace c) eqn:Hc, (run_is_space run) eqn:Hr;
      cbn [Bool.eqb map flatten fold_right run_is_space];
      rewrite ?Hhead, ?Hc;
      assert (Hrun : collapse_run run = if run_is_space run then " " else run)
        by reflexivity;
      rewrite ?Hrun, ?Hr; split; reflexivity.
Qed.

End LinesFacts.
(** ** Conn *)

Module ConnFacts.
Import Py StrFacts LinesFacts Conn.
Local Open Scope string_scope.

(** The scan of [_check_ok] over the input stream [f], and the two
    handlers of unexpected lines. *)
Local Abbreviation scan onempty f := (for_rl onempty (linereader f) f).
Local Abbreviation lenient := (fun rl : string => @inr exn unit tt).
Local Abbreviation strict :=
  (fun rl : string => @inl exn unit (Exception (MsgExpectedOk rl))).

Section Scan.
Context {O : Type} {HO : File.Out O}.
Variable onempty : string -> exn + unit.

Lemma scan_end : scan onempty [] = (inl server_exited, []).
Proof. reflexivity. Qed.

Lemma scan_blank (f : File.input) :
  scan onempty (File.nl :: f) = scan onempty f.
Proof. reflexivity. Qed.

Lemma scan_ok (f : File.input) :
  scan onempty (("ok" ++ File.nl) :: f) = (inr None, f).
Proof. reflexivity. Qed.

Lemma scan_error (m : string) (f : File.input) :
  scan onempty (("error " ++ m ++ File.nl) :: f)
  = (inr (Some (MkNotOk m)), f).
Proof.
  rewrite <- app_app, linereader_line. cbn [for_rl].
  rewrite startswith_app. reflexivity.
Qed.

Lemma scan_other (l : string) (f : File.input) :
  l <> "" -> l <> "ok" -> startswith l "error " = false ->
  scan onempty ((l ++ File.nl) :: f) =
    match onempty l with
    | inl e => (inl e, f)
    | inr _ => scan onempty f
    end.
Proof.
  intros Hne Hok Herr. rewrite linereader_line. cbn [for_rl].
  rewrite (proj2 (not_empty l) Hne), Herr.
  now rewrite (proj2 (String.eqb_neq l "ok") Hok).
Qed.

Lemma scan_blank_lines (k : nat) (f : File.input) :
  scan onempty (repeat File.nl k ++ f)%list = scan onempty f.
Proof.
  induction k as [| k IH]; [reflexivity | ].
  cbn [repeat List.app]. now rewrite scan_blank.
Qed.

(** A peer error can only come from a yielded line that starts with
    the six characters of ['error ']. *)
Lemma for_rl_not_ok_inv (g : list (string * File.input)) (f : File.input)
      (m : string) :
  fst (for_rl onempty g f) = inr (Some (MkNotOk m)) ->
  exists rl, List.In rl (map fst g) /\ rl = "error " ++ m.
Proof.
  revert f; induction g as [| [rl f'] g IH]; intros f Hrun.
  - discriminate Hrun.
  - cbn [for_rl] in Hrun.
    assert (Hlater : fst (for_rl onempty g f') = inr (Some (MkNotOk m)) ->
                     exists rl0, List.In rl0 (map fst ((rl, f') :: g)) /\
                                 rl0 = "error " ++ m).
    { intros Hg. destruct (IH _ Hg) as (rl0 & Hin & Hrl0).
      exists rl0. split; [now right | exact Hrl0]. }
    destruct (not_ rl); [now apply Hlater | ].
    destruct (rl =? "ok"); [discriminate Hrun | ].
    destruct (startswith rl "error ") eqn:Hpre.
    + cbn in Hrun. injection Hrun as <-.
      exists rl. split; [now left | ].
      exact (startswith_inv rl "error " Hpre).
    + destruct (onempty rl); [discriminate Hrun | now apply Hlater].
Qed.

Lemma check_ok_flushed (self : Conn.t O) (o' : O) :
  File.flush (outp self) = (inr tt, o') ->
  _check_ok onempty self =
    (fst (scan onempty (inp self)),
     Conn.Build (snd (scan onempty (inp self))) o').
Proof.
  intros Hflush. unfold _check_ok, bind, on_outp. rewrite Hflush.
  cbn [inp outp]. now destruct (scan onempty (inp self)).
Qed.

Lemma check_ok_not_ok_inv (self : Conn.t O) (m : string) :
  fst (_check_ok onempty self) = inr (Some (MkNotOk m)) ->
  exists rl,
    List.In rl (map fst (linereader (inp self))) /\ rl = "error " ++ m.
Proof.
  unfold _check_ok, bind, on_outp.
  destruct (File.flush (outp self)) as [[e | []] o']; cbn [inp outp].
  - discriminate.
  - destruct (scan onempty (inp self)) as [r f] eqn:Hscan.
    cbn [fst]. intros ->.
    apply (for_rl_not_ok_inv _ (inp self)). now rewrite Hscan.
Qed.

End Scan.

Lemma scan_lenient_no_sentinel (ls : list string) :
  Forall no_sentinel ls ->
  scan lenient (map (fun l => l ++ File.nl) ls) = (inl server_exited, []).
Proof.
  induction 1 as [| l ls [Hok Herr] _ IH]; [reflexivity | ].
  cbn [map]. destruct l as [| c l].
  - exact IH.
  - rewrite scan_other by (discriminate || assumption). exact IH.
Qed.

Lemma scan_strict_no_sentinel (ls : list string) :
  Forall no_sentinel ls ->
  fst (scan strict (map (fun l => l ++ File.nl) ls)) =
    inl match find (fun l => negb (not_ l)) ls with
        | Some l => Exception (MsgExpectedOk l)
        | None => server_exited
        end.
Proof.
  induction 1 as [| l ls [Hok Herr] _ IH]; [reflexivity | ].
  cbn [map find]. destruct l as [| c l].
  - exact IH.
  - rewrite scan_other by (discriminate || assumption). reflexivity.
Qed.

Section Claims.
Context {O : Type} {HO : File.Out O}.

(** C5.  The peer writes an unexpected line [g], neither blank nor a
    sentinel, then a blank line and [ok].  The lenient scan discards
    [g] and returns [None], having read up to the [ok] line; the
    strict scan raises the protocol violation for [g] as soon as it
    is read, which is an exception and not the [NotOk] value that
    reports an error of the peer. *)
Theorem unexpected_line_lenient_strict
        (self : Conn.t O) (o' : O) (g rest : string) :
  File.flush (outp self) = (inr tt, o') ->
  one_line g = true ->
  g <> "" -> g <> "ok" -> startswith g "error " = false ->
  inp self =
    File.of_content (g ++ File.nl ++ File.nl ++ "ok" ++ File.nl ++ rest) ->
  drain_and_check_ok self
    = (inr None, Conn.Build (File.of_content rest) o') /\
  check_ok self
    = (inl (Exception (MsgExpectedOk g)),
       Conn.Build (File.of_content (File.nl ++ "ok" ++ File.nl ++ rest)) o') /\
  forall m, fst (check_ok self) <> inr (Some (MkNotOk m)).
Proof.
  intros Hflush Hline Hne Hok Herr Hinp.
  assert (Hreads : inp self =
            (g ++ File.nl) :: File.nl :: ("ok" ++ File.nl)
              :: File.of_content rest).
  { rewrite Hinp, (of_content_line g) by exact Hline.
    rewrite of_content_blank.
    now rewrite (of_content_line "ok") by reflexivity. }
  unfold drain_and_check_ok, check_ok. cbv zeta.
  rewrite !(check_ok_flushed _ self o' Hflush), Hreads.
  rewrite !scan_other by assumption.
  rewrite scan_blank, scan_ok. cbn [fst snd].
  rewrite of_content_blank.
  rewrite (of_content_line "ok") by reflexivity.
  repeat split. discriminate.
Qed.

(** C6.  After any number of blank lines, a line ['error ' + m] makes
    the scan return, not raise, a [NotOk] value that carries exactly
    [m], and a line equal to ['ok'] makes it return [None]; this
    holds with every handler of unexpected lines. *)
Theorem peer_error_returned
        (self : Conn.t O) (o' : O) (onempty : string -> exn + unit)
        (k : nat) (m rest : string) :
  File.flush (outp self) = (inr tt, o') ->
  one_line m = true ->
  (inp self =
     File.of_content (blank_lines k ++ "error " ++ m ++ File.nl ++ rest) ->
   _check_ok onempty self
     = (inr (Some (MkNotOk m)), Conn.Build (File.of_content rest) o')) /\
  (inp self = File.of_content (blank_lines k ++ "ok" ++ File.nl ++ rest) ->
   _check_ok onempty self
     = (inr None, Conn.Build (File.of_content rest) o')).
Proof.
  intros Hflush Hline.
  rewrite !(check_ok_flushed _ self o' Hflush).
  split; intros ->; rewrite of_content_blank_lines, scan_blank_lines.
  - rewrite <- (app_app "error " m), of_content_line by exact Hline.
    rewrite app_app. now rewrite scan_error.
  - rewrite (of_content_line "ok") by reflexivity.
    now rewrite scan_ok.
Qed.

(** C7, as amended.  When every line read ends in a newline and none
    is ['ok'] or starts with ['error '], the scan never returns
    normally: the lenient scan reads to the end of the stream and
    raises 'server exited unexpectedly'; the strict scan raises the
    protocol violation for the first line that is not blank, and
    'server exited unexpectedly' when every line is blank. *)
Theorem end_of_stream_raises
        (self : Conn.t O) (o' : O) (ls : list string) :
  File.flush (outp self) = (inr tt, o') ->
  Forall no_sentinel ls ->
  inp self = map (fun l => l ++ File.nl) ls ->
  drain_and_check_ok self = (inl server_exited, Conn.Build [] o') /\
  fst (check_ok self) =
    inl match find (fun l => negb (not_ l)) ls with
        | Some l => Exception (MsgExpectedOk l)
        | None => server_exited
        end.
Proof.
  intros Hflush Hls Hinp.
  unfold drain_and_check_ok, check_ok. cbv zeta.
  rewrite !(check_ok_flushed _ self o' Hflush), Hinp.
  rewrite (scan_lenient_no_sentinel ls Hls). cbn [fst snd].
  split; [reflexivity | exact (scan_strict_no_sentinel ls Hls)].
Qed.

(** C8.  [error(s)] makes one [write] call on the output stream, with
    exactly the bytes of a newline, ['error '], [s] with every
    maximal run of whitespace replaced by one space, and a newline.
    The runs are a cut of [s] into non-empty pieces, each all
    whitespace or free of it, neighbours of different kinds.  The
    text written between the two newlines holds no newline, so a
    reader gets a blank line and one error line. *)
Theorem error_writes_collapsed_line (self : Conn.t O) (s : string) :
  let bytes := File.nl ++ "error " ++ collapse_runs s ++ File.nl in
  Conn.error s self =
    (fst (File.write bytes (outp self)),
     Conn.Build (inp self) (snd (File.write bytes (outp self)))) /\
  flatten (runs s) = s /\
  Forall uniform (runs s) /\
  alternating (runs s) = true /\
  one_line ("error " ++ collapse_runs s) = true /\
  File.of_content bytes = [File.nl; "error " ++ collapse_runs s ++ File.nl].
Proof.
  cbv zeta.
  destruct (sub_spaces_runs s) as [Hsub _].
  assert (Hline : one_line ("error " ++ collapse_runs s) = true).
  { rewrite <- Hsub. exact (sub_spaces_one_line false s). }
  split; [ | split; [ | split; [ | split; [ | split]]]].
  - unfold Conn.error, Conn.write, on_outp, re_sub_spaces.
    rewrite Hsub.
    now destruct (File.write _ (outp self)).
  - apply flatten_runs.
  - apply runs_uniform.
  - apply runs_alternating.
  - exact Hline.
  - rewrite of_content_blank.
    replace ("error " ++ collapse_runs s ++ File.nl)
      with (("error " ++ collapse_runs s) ++ File.nl ++ "")
      by now rewrite app_app, app_empty_r.
    rewrite of_content_line by exact Hline.
    reflexivity.
Qed.

(** C9.  [linereader] yields every value of [readline()] without its
    last character, newline or not.  So when the stream ends with an
    ['ok'] that has no newline, after any number of blank lines, the
    value yielded is ['o']: the lenient scan discards it and raises
    'server exited unexpectedly', the strict scan raises the protocol
    violation for ['o'], and neither returns success. *)
Theorem linereader_drops_last_character
        (self : Conn.t O) (o' : O) (f : File.input) (k : nat) :
  Forall (fun line => line <> "") f ->
  File.flush (outp self) = (inr tt, o') ->
  inp self = File.of_content (blank_lines k ++ "ok") ->
  map fst (linereader f) = map slice_to_last f /\
  map fst (linereader (inp self)) = (repeat "" k ++ ["o"])%list /\
  drain_and_check_ok self = (inl server_exited, Conn.Build [] o') /\
  check_ok self = (inl (Exception (MsgExpectedOk "o")), Conn.Build [] o').
Proof.
  intros Hf Hflush Hinp.
  split; [exact (linereader_values f Hf) | ].
  unfold drain_and_check_ok, check_ok. cbv zeta.
  rewrite !(check_ok_flushed _ self o' Hflush), Hinp.
  rewrite of_content_blank_lines, !scan_blank_lines.
  split; [ | split; reflexivity].
  rewrite linereader_values.
  - rewrite map_app, map_repeat. reflexivity.
  - apply Forall_app. split; [ | repeat constructor; discriminate].
    apply Forall_forall. intros x Hx.
    apply repeat_spec in Hx. subst x. discriminate.
Qed.

(** C10.  A line that is exactly ['error'] is no sentinel: the strict
    scan raises the protocol violation for it, the lenient scan
    discards it and goes on with the lines after it.  Whatever the
    handler, a [NotOk m] is returned only for a yielded line that
    starts with the six characters ['error '], and [m] is what
    follows them. *)
Theorem bare_error_is_unexpected
        (self : Conn.t O) (o' : O) (onempty : string -> exn + unit)
        (m rest : string) :
  File.flush (outp self) = (inr tt, o') ->
  (inp self = File.of_content ("error" ++ File.nl ++ rest) ->
   check_ok self
     = (inl (Exception (MsgExpectedOk "error")),
        Conn.Build (File.of_content rest) o') /\
   drain_and_check_ok self
     = (fst (scan lenient (File.of_content rest)),
        Conn.Build (snd (scan lenient (File.of_content rest))) o')) /\
  (fst (_check_ok onempty self) = inr (Some (MkNotOk m)) ->
   exists rl,
     List.In rl (map fst (linereader (inp self))) /\
     startswith rl "error " = true /\
     rl = "error " ++ m /\ m = slice_from 6 rl).
Proof.
  intros Hflush. split.
  - intros Hinp.
    unfold drain_and_check_ok, check_ok. cbv zeta.
    rewrite !(check_ok_flushed _ self o' Hflush), Hinp.
    rewrite (of_content_line "error") by reflexivity.
    rewrite !scan_other by (discriminate || reflexivity).
    split; reflexivity.
  - intros Hrun.
    destruct (check_ok_not_ok_inv onempty self m Hrun) as (rl & Hin & ->).
    exists ("error " ++ m). split; [exact Hin | ].
    split; [apply startswith_app | split; reflexivity].
Qed.

End Claims.

Lemma unexpected_line_lenient_strict_witness :
  let content := "garbage" ++ File.nl ++ File.nl ++ "ok" ++ File.nl in
  drain_and_check_ok (Sample.reading content)
    = (inr None, Conn.Build [] Sample.idle) /\
  check_ok (Sample.reading content)
    = (inl (Exception (MsgExpectedOk "garbage")),
       Conn.Build [File.nl; "ok" ++ File.nl] Sample.idle).
Proof.
  cbv zeta.
  destruct (unexpected_line_lenient_strict
              (Sample.reading ("garbage" ++ File.nl ++ File.nl ++ "ok" ++ File.nl))
              Sample.idle "garbage" "")
    as (Hlenient & Hstrict & _);
    try reflexivity; try discriminate.
  split; [exact Hlenient | exact Hstrict].
Defined.

Lemma peer_error_returned_witness :
  check_ok (Sample.reading (File.nl ++ "error disk full" ++ File.nl))
    = (inr (Some (MkNotOk "disk full")), Conn.Build [] Sample.idle) /\
  drain_and_check_ok (Sample.reading (File.nl ++ "ok" ++ File.nl))
    = (inr None, Conn.Build [] Sample.idle).
Proof.
  split.
  - refine (proj1 (peer_error_returned
                     (Sample.reading (File.nl ++ "error disk full" ++ File.nl))
                     Sample.idle strict 1 "disk full" "" _ _) _);
      reflexivity.
  - refine (proj2 (peer_error_returned
                     (Sample.reading (File.nl ++ "ok" ++ File.nl))
                     Sample.idle lenient 1 "" "" _ _) _);
      reflexivity.
Defined.

Lemma end_of_stream_raises_witness :
  let content := File.nl ++ "garbage" ++ File.nl in
  drain_and_check_ok (Sample.reading content)
    = (inl server_exited, Conn.Build [] Sample.idle) /\
  fst (check_ok (Sample.reading content))
    = inl (Exception (MsgExpectedOk "garbage")).
Proof.
  cbv zeta.
  apply (end_of_stream_raises
           (Sample.reading (File.nl ++ "garbage" ++ File.nl))
           Sample.idle [""; "garbage"]).
  - reflexivity.
  - repeat constructor; discriminate.
  - reflexivity.
Defined.

(** C7, as stated, fails in the strict mode: a stream that holds one
    unexpected line and ends makes [check_ok] raise the protocol
    violation, not 'server exited unexpectedly'. *)
Lemma strict_scan_reports_the_line_not_the_exit :
  fst (check_ok (Sample.reading ("garbage" ++ File.nl)))
    = inl (Exception (MsgExpectedOk "garbage")) /\
  fst (check_ok (Sample.reading ("garbage" ++ File.nl)))
    <> inl server_exited.
Proof. split; [reflexivity | discriminate]. Qed.

Lemma linereader_drops_last_character_witness :
  map fst (linereader ["ok" ++ File.nl; "ok"]) = ["ok"; "o"] /\
  map fst (linereader (File.of_content (File.nl ++ "ok"))) = [""; "o"] /\
  drain_and_check_ok (Sample.reading (File.nl ++ "ok"))
    = (inl server_exited, Conn.Build [] Sample.idle) /\
  check_ok (Sample.reading (File.nl ++ "ok"))
    = (inl (Exception (MsgExpectedOk "o")), Conn.Build [] Sample.idle).
Proof.
  apply (linereader_drops_last_character
           (Sample.reading (File.nl ++ "ok")) Sample.idle
           ["ok" ++ File.nl; "ok"] 1).
  - repeat constructor; discriminate.
  - reflexivity.
  - reflexivity.
Defined.

Lemma bare_error_is_unexpected_witness :
  let content := "error" ++ File.nl ++ "error x" ++ File.nl in
  check_ok (Sample.reading content)
    = (inl (Exception (MsgExpectedOk "error")),
       Conn.Build ["error x" ++ File.nl] Sample.idle) /\
  drain_and_check_ok (Sample.reading content)
    = (inr (Some (MkNotOk "x")), Conn.Build [] Sample.idle) /\
  exists rl,
    List.In rl (map fst (linereader (inp (Sample.reading content)))) /\
    rl = "error x".
Proof.
  cbv zeta.
  destruct (bare_error_is_unexpected
              (Sample.reading ("error" ++ File.nl ++ "error x" ++ File.nl))
              Sample.idle lenient "x" ("error x" ++ File.nl))
    as [Hbare Honly]; [reflexivity | ].
  destruct Hbare as [Hstrict Hlenient]; [reflexivity | ].
  destruct Honly as (rl & Hin & _ & Hrl & _); [reflexivity | ].
  split; [exact Hstrict | split; [exact Hlenient | ]].
  exists rl. split; [exact Hin | exact Hrl].
Defined.

End ConnFacts.

(** * Further properties *)

(** ** FSTime, continued *)

Module FSTimeMore.
Import FSTime.

Lemma giga : 10 ^ 9 = 1000000000.
Proof. reflexivity. Qed.

(** [to_timespec] gives the quotient and the remainder of the floor
    division by [10^9]. *)
Lemma to_timespec_floor (self : t) :
  to_timespec self = (_value self / 10 ^ 9, _value self mod 10 ^ 9).
Proof.
  pose proof (FSTimeFacts.secs_nsecs_sum self) as Hsum.
  destruct (FSTimeFacts.secs_nsecs_range self) as [Hpos Hneg].
  unfold to_timespec.
  destruct (secs_nsecs self) as [a b]; cbn [fst snd] in *.
  rewrite giga in *.
  assert (Hq : forall s ns, 0 <= ns < 1000000000 ->
                 s * 1000000000 + ns = _value self ->
                 (s, ns) = (_value self / 1000000000,
                            _value self mod 1000000000)).
  { intros s ns Hns Hv.
    pose proof (Z.div_mod (_value self) 1000000000 ltac:(lia)).
    pose proof (Z.mod_pos_bound (_value self) 1000000000 ltac:(lia)).
    f_equal; nia. }
  destruct (Z.gtb_spec a 0) as [Ha | Ha];
    destruct (Z.geb_spec b 0) as [Hb | Hb]; cbn [orb];
    apply Hq; lia.
Qed.

Lemma timespec_round_trip_aux (s ns : Z) :
  0 <= ns < 10 ^ 9 ->
  to_timespec (from_timespec (s, ns)) = (s, ns).
Proof.
  intros Hns. rewrite to_timespec_floor. cbn [from_timespec _value fst snd].
  rewrite giga in *.
  rewrite Z.add_comm, Z.div_add, Z.mod_add by lia.
  rewrite Z.div_small, Z.mod_small by lia.
  reflexivity.
Qed.

(** X1.  A (seconds, nanoseconds) pair whose nanoseconds are already
    within [0, 10^9) comes back unchanged from [from_timespec] followed
    by [to_timespec], for negative seconds as well. *)
Theorem timespec_round_trip (s ns : Z) :
  0 <= ns < 10 ^ 9 ->
  to_timespec (from_timespec (s, ns)) = (s, ns).
Proof. exact (timespec_round_trip_aux s ns). Qed.

Lemma timespec_round_trip_witness :
  to_timespec (from_timespec (-3, 999999999)) = (-3, 999999999).
Proof. apply timespec_round_trip. rewrite giga. lia. Defined.

(** X2.  An [FSTime] is recovered from its timespec, and from the pair
    of [secs_nsecs] too: neither conversion loses anything. *)
Theorem fstime_of_its_timespec (self : t) :
  from_timespec (to_timespec self) = self /\
  from_timespec (secs_nsecs self) = self.
Proof.
  split; destruct self as [v]; unfold from_timespec; f_equal.
  - rewrite to_timespec_floor. cbn [fst snd _value].
    pose proof (Z.div_mod v (10 ^ 9) ltac:(rewrite giga; lia)). lia.
  - exact (FSTimeFacts.secs_nsecs_sum {| _value := v |}).
Qed.

(** X3.  [secs_nsecs] rounds towards zero, so both parts carry the sign
    of the instant (-1.5s is (-1, -5 * 10^8)), while [to_timespec] rounds
    down (-1.5s is (-2, 5 * 10^8)); the two agree exactly on the
    instants that are not negative or are whole seconds. *)
Theorem secs_nsecs_truncates (self : t) :
  secs_nsecs self = (Z.quot (_value self) (10 ^ 9),
                     Z.rem (_value self) (10 ^ 9)) /\
  to_timespec self = (_value self / 10 ^ 9, _value self mod 10 ^ 9) /\
  (secs_nsecs self = to_timespec self <->
   0 <= _value self \/ _value self mod 10 ^ 9 = 0).
Proof.
  assert (Htrunc : secs_nsecs self = (Z.quot (_value self) (10 ^ 9),
                                      Z.rem (_value self) (10 ^ 9))).
  { unfold secs_nsecs.
    destruct (Z.geb_spec (_value self) 0) as [Hge | Hlt].
    - rewrite Z.quot_div_nonneg, Z.rem_mod_nonneg by (rewrite ?giga; lia).
      reflexivity.
    - cbv zeta.
      rewrite <- (Z.opp_involutive (_value self)) at 3 4.
      rewrite Z.quot_opp_l, Z.rem_opp_l by (rewrite giga; lia).
      rewrite Z.quot_div_nonneg, Z.rem_mod_nonneg by (rewrite ?giga; lia).
      reflexivity. }
  split; [exact Htrunc | ].
  split; [apply to_timespec_floor | ].
  rewrite to_timespec_floor. unfold secs_nsecs.
  rewrite giga in *.
  pose proof (Z.mod_pos_bound (_value self) 1000000000 ltac:(lia)) as Hm.
  destruct (Z.geb_spec (_value self) 0) as [Hge | Hlt].
  - split; [intros _; now left | reflexivity].
  - cbv zeta.
    pose proof (Z.mod_pos_bound (- _value self) 1000000000 ltac:(lia)) as Hm'.
    split.
    + intros Heq. injection Heq as _ Hns. right. lia.
    + intros [Hge | Hz]; [lia | ].
      apply Z.mod_divide in Hz; [ | lia]. destruct Hz as [q Hq].
      rewrite Hq, <- Z.mul_opp_l.
      rewrite !Z.div_mul, !Z.mod_mul by lia.
      f_equal; lia.
Qed.


End FSTimeMore.

(** ** lutime and the nanosecond stat payload *)

Module TimesMore.
Import Stat.


(** X6.  With the integer class and nanosecond timestamps, the factory
    copies the eight plain fields of the tuple of the C helper, and the
    timespec of each time field of the result is the native pair again,
    when that pair has its nanoseconds within [0, 10^9). *)
Theorem from_stat_rep_keeps_native_times
        (mode ino dev nlink uid gid rdev size : Z) (a m c : Z * Z) :
  0 <= snd a < 10 ^ 9 ->
  0 <= snd m < 10 ^ 9 ->
  0 <= snd c < 10 ^ 9 ->
  exists r ta tm tc,
    from_stat_rep true true
      (StatTuple mode ino dev nlink uid gid rdev size
                 (PTimespec (fst a) (snd a)) (PTimespec (fst m) (snd m))
                 (PTimespec (fst c) (snd c))) = inr r /\
    (st_mode r, st_ino r, st_dev r, st_nlink r)
      = (mode, ino, dev, nlink) /\
    (st_uid r, st_gid r, st_rdev r, st_size r) = (uid, gid, rdev, size) /\
    st_atime r = PFSTime ta /\ FSTime.to_timespec ta = a /\
    st_mtime r = PFSTime tm /\ FSTime.to_timespec tm = m /\
    st_ctime r = PFSTime tc /\ FSTime.to_timespec tc = c.
Proof.
  intros Ha Hm Hc. destruct a as [sa na], m as [sm nm], c as [sc nc].
  cbn [fst snd] in *.
  eexists. exists (FSTime.from_timespec (sa, na)), (FSTime.from_timespec (sm, nm)),
             (FSTime.from_timespec (sc, nc)).
  split; [reflexivity | ]. cbn [st_mode st_ino st_dev st_nlink st_uid st_gid
                                 st_rdev st_size st_atime st_mtime st_ctime].
  repeat (split; [reflexivity | ]).
  split; [apply FSTimeMore.timespec_round_trip_aux; assumption | ].
  split; [reflexivity | ].
  split; [apply FSTimeMore.timespec_round_trip_aux; assumption | ].
  split; [reflexivity | ].
  apply FSTimeMore.timespec_round_trip_aux; assumption.
Qed.

Lemma from_stat_rep_keeps_native_times_witness :
  exists r,
    from_stat_rep true true
      (StatTuple 33188 42 2049 1 1000 1000 0 12
                 (PTimespec 1 500000000) (PTimespec 2 0)
                 (PTimespec (-2) 500000000)) = inr r /\
    exists tc, st_ctime r = PFSTime tc /\ FSTime.to_timespec tc = (-2, 500000000).
Proof.
  assert (Hns : forall ns, 0 <= ns < 1000000000 -> 0 <= ns < 10 ^ 9)
    by (intros ns Hns; exact Hns).
  destruct (from_stat_rep_keeps_native_times
              33188 42 2049 1 1000 1000 0 12
              (1, 500000000) (2, 0) (-2, 500000000)
              (Hns 500000000 ltac:(lia)) (Hns 0 ltac:(lia))
              (Hns 500000000 ltac:(lia)))
    as (r & ta & tm & tc & Hr & _ & _ & _ & _ & _ & _ & Hc & Htc).
  exists r. split; [exact Hr | ]. exists tc. split; [exact Hc | exact Htc].
Defined.

End TimesMore.

(** ** _hard_write, continued *)

Module HardWriteMore.
Import Py HardWrite StrFacts.
Local Open Scope string_scope.

Lemma slice_from_slice_from (n m : nat) (s : string) :
  slice_from n (slice_from m s) = slice_from (m + n) s.
Proof.
  revert s; induction m as [| m IH]; intros s; [reflexivity | ].
  destruct s as [| c s]; cbn [slice_from Nat.add].
  - now destruct n.
  - apply IH.
Qed.

Lemma slice_to_all (n : nat) (s : string) :
  (String.length s <= n)%nat -> slice_to n s = s.
Proof.
  revert s; induction n as [| n IH]; intros [| c s] Hlen; cbn in *;
    try reflexivity; try lia.
  now rewrite IH by lia.
Qed.




(** From a point on, the descriptor is writable and takes at least one
    byte at every write: the rest of the buffer is sent. *)
Lemma loop_sends_all_from fd (k0 : nat) :
  (forall k, (k0 <= k)%nat -> writable fd k = true) ->
  (forall k, (k0 <= k)%nat -> exists n, reply fd k = Accepts (S n)) ->
  forall rounds buf sz w,
    (k0 <= clock w)%nat ->
    (String.length buf <= rounds)%nat ->
    exists w',
      _hard_write_loop rounds fd buf sz w = Returned w' /\
      wire w' = wire w ++ buf.
Proof.
  intros Hsel Hrep.
  induction rounds as [| rounds IH]; intros buf sz w Hk Hlen.
  - destruct buf; [ | cbn in Hlen; lia].
    exists w. split; [reflexivity | now rewrite app_empty_r].
  - destruct buf as [| c buf].
    { exists w. split; [reflexivity | now rewrite app_empty_r]. }
    cbn [_hard_write_loop not_]. unfold select, os_write.
    rewrite (Hsel _ Hk).
    destruct (Hrep _ Hk) as [n ->].
    set (k := Nat.min (S n) (String.length (String c buf))).
    edestruct (IH (slice_from k (String c buf)) (Some k)) as (w' & Hrun & Hw);
      [ | | exists w'; split; [exact Hrun | ] ].
    + cbn [clock]. lia.
    + rewrite length_slice_from. subst k. cbn [String.length] in *. lia.
    + rewrite Hw. cbn [wire]. now rewrite app_app, slice_to_slice_from.
Qed.

(** X8.  A would-block answer after a write of [n] bytes loses data:
    the handler leaves [sz] at [n], so the next [n] bytes are cut from
    the buffer although the descriptor never took them.  When the
    descriptor recovers, [_hard_write] returns normally having sent the
    buffer without its bytes [n] to [2n]. *)
Theorem hard_write_drops_bytes_after_would_block
        (fd : descriptor) (rounds n : nat) (buf : string) (w : os) :
  (forall k, writable fd k = true) ->
  reply fd (clock w) = Accepts n ->
  (0 < n < String.length buf)%nat ->
  reply fd (S (clock w)) = Fails EAGAIN ->
  (forall k, (S (S (clock w)) <= k)%nat -> exists m, reply fd k = Accepts (S m)) ->
  (String.length buf <= rounds)%nat ->
  exists w',
    _hard_write (S (S rounds)) fd buf w = Returned w' /\
    wire w' = wire w ++ slice_to n buf ++ slice_from (n + n) buf.
Proof.
  intros Hsel Hfirst Hn Hblock Hrest Hlen.
  destruct buf as [| c buf]; [cbn in Hn; lia | ].
  unfold _hard_write.
  cbn [_hard_write_loop not_]. unfold select at 1, os_write at 1.
  rewrite Hsel, Hfirst.
  replace (Nat.min n (String.length (String c buf))) with n by lia.
  destruct (slice_from n (String c buf)) as [| d tail] eqn:Htail.
  { pose proof (length_slice_from n (String c buf)) as Hl.
    rewrite Htail in Hl. cbn [String.length] in Hl. cbn in Hn. lia. }
  cbn [not_]. unfold select, os_write. cbn [clock wire].
  rewrite Hsel, Hblock. cbn [Z.eqb negb].
  change (EAGAIN =? EAGAIN)%Z with true. cbn [negb].
  rewrite <- Htail, slice_from_slice_from.
  edestruct (loop_sends_all_from fd (S (S (clock w)))
               (fun k _ => Hsel k) Hrest rounds
               (slice_from (n + n) (String c buf)) (Some n))
    as (w' & Hrun & Hw); [ | | exists w'; split; [exact Hrun | ] ].
  - cbn [clock]. lia.
  - rewrite length_slice_from. lia.
  - rewrite Hw. cbn [wire]. now rewrite app_app.
Qed.

Lemma hard_write_drops_bytes_after_would_block_witness :
  exists w',
    _hard_write 9 busy_fd "abcdefg" boot = Returned w' /\
    wire w' = "ab" ++ "efg".
Proof.
  destruct (hard_write_drops_bytes_after_would_block
              busy_fd 7 2 "abcdefg" boot) as (w' & Hrun & Hw).
  - reflexivity.
  - reflexivity.
  - cbn. lia.
  - reflexivity.
  - intros k Hk. exists 1%nat.
    destruct k as [| [| k]]; [cbn in Hk; lia | cbn in Hk; lia | reflexivity].
  - cbn. lia.
  - exists w'. split; [exact Hrun | exact Hw].
Defined.

(** X9.  When the first [os.write] of a call fails, nothing has been
    sent and the call ends: with [UnboundLocalError] for [EAGAIN],
    because [sz] was never assigned, and with the [OSError] itself for
    any other errno. *)
Theorem hard_write_first_write_fails
        (fd : descriptor) (rounds : nat) (buf : string) (w : os) (errno : Z) :
  buf <> "" ->
  writable fd (clock w) = true ->
  reply fd (clock w) = Fails errno ->
  _hard_write (S rounds) fd buf w =
    Raised (if (errno =? EAGAIN)%Z then UnboundLocalError "sz"
            else OSError errno)
           {| clock := S (clock w); wire := wire w |}.
Proof.
  intros Hbuf Hsel Hrep. destruct buf; [congruence | ].
  unfold _hard_write. cbn [_hard_write_loop not_].
  unfold select, os_write. rewrite Hsel, Hrep.
  now destruct (errno =? EAGAIN)%Z.
Qed.

Lemma hard_write_first_write_fails_witness :
  _hard_write 3 full_fd "abc" boot =
    Raised (UnboundLocalError "sz") {| clock := 1; wire := "" |}.
Proof.
  apply (hard_write_first_write_fails full_fd 2 "abc" boot EAGAIN);
    [discriminate | reflexivity | reflexivity].
Defined.

End HardWriteMore.

(** ** log and add_error *)

Module LogFacts.
Import Py PyStr HardWrite StrFacts Log.
Local Open Scope string_scope.

Lemma length_spaces (n : nat) : String.length (spaces n) = n.
Proof. induction n as [| n IH]; cbn; [ | rewrite IH]; reflexivity. Qed.

Lemma length_append (a b : string) :
  String.length (a ++ b) = (String.length a + String.length b)%nat.
Proof. induction a as [| x a IH]; cbn; [ | rewrite IH]; reflexivity. Qed.

Lemma length_ljust (width : nat) (s : string) :
  String.length (ljust width s) = Nat.max width (String.length s).
Proof. unfold ljust. rewrite length_append, length_spaces. lia. Qed.



End LogFacts.

(** ** unlink and mkdirp *)

Module FsFacts.
Import Py Fs.

(** X11.  [unlink] never raises an [OSError]: the handler ends every
    errno of [os.unlink], not only that of a missing file, and leaves
    the file system as the failed call left it.  [mkdirp] ends only the
    errno of an existing path and raises every other one again, and a
    mode of zero is not passed on. *)
Theorem unlink_ends_every_oserror
        (fs : Type) (os_unlink : string -> M fs unit)
        (os_makedirs : string -> option Z -> M fs unit)
        (f : string) (w : fs) :
  (forall errno, fst (unlink fs os_unlink f w) <> inl (OSError errno)) /\
  snd (unlink fs os_unlink f w) = snd (os_unlink f w) /\
  (forall errno, fst (os_unlink f w) = inl (OSError errno) ->
                 fst (unlink fs os_unlink f w) = inr tt) /\
  (forall errno mode,
     fst (mkdirp fs os_makedirs f mode w) = inl (OSError errno) <->
     errno <> EEXIST /\
     fst (os_makedirs f (match mode with
                         | Some 0 => None
                         | _ => mode
                         end) w) = inl (OSError errno)).
Proof.
  unfold unlink, mkdirp.
  split; [ | split; [ | split]].
  - intros errno.
    destruct (os_unlink f w) as [[[] | []] w']; cbn;
      try destruct (_ =? _); discriminate.
  - destruct (os_unlink f w) as [[[] | []] w']; cbn;
      try destruct (_ =? _); reflexivity.
  - intros errno. destruct (os_unlink f w) as [[x | []] w']; cbn.
    + intros Hx. injection Hx as ->. now destruct (_ =? _).
    + discriminate.
  - intros errno mode.
    assert (Hcall :
      (match mode with
       | Some m => if m =? 0 then os_makedirs f None
                   else os_makedirs f (Some m)
       | None => os_makedirs f None
       end) w
      = os_makedirs f (match mode with Some 0 => None | _ => mode end) w).
    { destruct mode as [[| m | m] |]; reflexivity. }
    rewrite Hcall.
    destruct (os_makedirs f _ w) as [[x | []] w']; cbn.
    + destruct x; cbn; try (split; [discriminate | intros [_ H]; discriminate H]).
      destruct (Z.eqb_spec errno0 EEXIST) as [-> | Hne]; cbn.
      * split; [discriminate | ]. intros [Hne H]. injection H as <-.
        now elim Hne.
      * split.
        -- intros H. injection H as <-. now split.
        -- now intros [_ H].
    + split; [discriminate | intros [_ H]; discriminate H].
Qed.

End FsFacts.

(** ** slashappend and count *)

Module UtilFacts.
Import Py PyStr Util StrFacts.
Local Open Scope string_scope.

Lemma endswith_app (s p : string) : endswith (s ++ p) p = true.
Proof.
  unfold endswith. rewrite LogFacts.length_append.
  replace (String.length s + String.length p - String.length p)%nat
    with (String.length s) by lia.
  apply andb_true_intro. split.
  - apply Nat.leb_le. lia.
  - apply String.eqb_eq.
    induction s as [| c s IH]; [reflexivity | exact IH].
Qed.

(** X12.  [slashappend] is idempotent: its result is either empty or
    ends with a slash, it leaves exactly such strings unchanged, and so
    a second application adds nothing. *)
Theorem slashappend_idempotent (s : string) :
  slashappend (slashappend s) = slashappend s /\
  (slashappend s = "" \/ endswith (slashappend s) "/" = true) /\
  (slashappend s = s <-> s = "" \/ endswith s "/" = true) /\
  (slashappend s = s \/ slashappend s = s ++ "/").
Proof.
  assert (Hfix : forall t, t = "" \/ endswith t "/" = true ->
                           slashappend t = t).
  { intros t [-> | Ht]; [reflexivity | ].
    unfold slashappend. rewrite Ht. now rewrite andb_false_r. }
  assert (Hres : slashappend s = "" \/ endswith (slashappend s) "/" = true).
  { unfold slashappend. destruct s as [| c s]; [now left | ].
    cbn [not_ negb andb].
    destruct (endswith (String c s) "/") eqn:He; cbn [negb]; right.
    - exact He.
    - apply endswith_app. }
  split; [exact (Hfix _ Hres) | ].
  split; [exact Hres | ].
  split.
  - split; [ | apply Hfix].
    unfold slashappend. destruct s as [| c s]; [now left | ].
    cbn [not_ negb andb].
    destruct (endswith (String c s) "/"); cbn [negb]; [now right | ].
    intros Heq. apply (f_equal String.length) in Heq.
    rewrite LogFacts.length_append in Heq. cbn in Heq. lia.
  - unfold slashappend. destruct (_ && _); [now right | now left].
Qed.

Lemma reduce_from_plus_one (l : list item) (n : Z) :
  reduce_from plus_one (Int n) l = inr (Int (n + Z.of_nat (List.length l))).
Proof.
  revert n; induction l as [| y l IH]; intros n.
  - cbn. now rewrite Z.add_0_r.
  - cbn [reduce_from plus_one List.length]. rewrite IH. do 2 f_equal. lia.
Qed.

(** X13.  [count] does not count: [reduce] without an initial value
    starts from the first element, so on a sequence that starts with the
    integer [n] the result is [n] plus the number of elements after it,
    which is the number of elements only when [n] is 1.  One element is
    returned as it is, an empty sequence is a [TypeError], and so is a
    longer one that starts with an object that does not add to an
    integer. *)
Theorem count_starts_from_first_element (n : Z) (x : item) (l : list item) :
  count (Int n :: l) = inr (Int (n + Z.of_nat (List.length l))) /\
  (count (Int n :: l) = inr (Int (Z.of_nat (List.length (Int n :: l))))
   <-> n = 1) /\
  count [x] = inr x /\
  count [] = inl TypeError /\
  (forall tag y, count (Obj tag :: y :: l) = inl TypeError).
Proof.
  unfold count, reduce.
  split; [apply reduce_from_plus_one | ].
  split; [ | repeat split].
  rewrite reduce_from_plus_one. cbn [List.length]. split.
  - intros H. injection H as H. lia.
  - intros ->. do 2 f_equal. lia.
Qed.

End UtilFacts.

(** ** chunkyreader *)

Module ChunkyFacts.
Import Py PyStr Chunky StrFacts.
Local Open Scope string_scope.

(** A chunk as [chunkyreader] yields them: not empty, and of at most
    65536 bytes. *)
Local Abbreviation chunk_ok :=
  (fun b : string => b <> "" /\ (Z.of_nat (String.length b) <= 65536)%Z).

Lemma length_slice_to (n : nat) (s : string) :
  String.length (slice_to n s) = Nat.min n (String.length s).
Proof.
  revert s; induction n as [| n IH]; intros [| c s]; cbn; try reflexivity.
  now rewrite IH.
Qed.

Lemma slice_from_all (n : nat) (s : string) :
  (String.length s <= n)%nat -> slice_from n s = "".
Proof.
  revert s; induction n as [| n IH]; intros [| c s] Hlen; cbn in *;
    try reflexivity; try lia.
  apply IH. lia.
Qed.

Lemma slice_from_slice_from_eq (n m : nat) (s : string) :
  slice_from m (slice_from n s) = slice_from (n + m) s.
Proof. apply HardWriteMore.slice_from_slice_from. Qed.

Lemma slice_to_add (n m : nat) (s : string) :
  slice_to n s ++ slice_to m (slice_from n s) = slice_to (n + m) s.
Proof.
  revert s; induction n as [| n IH]; intros s; [reflexivity | ].
  destruct s as [| c s]; cbn [slice_to slice_from Nat.add append].
  - now destruct m.
  - now rewrite IH.
Qed.

Lemma counted_spec (rounds : nat) :
  forall (f : string) (count : Z),
    (String.length f < rounds)%nat ->
    exists chunks,
      counted rounds f count =
        (chunks,
         if (count <=? Z.of_nat (String.length f))%Z then Stop
         else Raise (IOError (Msg ("EOF with "
                 ++ str_of_int (count - Z.of_nat (String.length f))
                 ++ " bytes remaining"))),
         slice_from (Z.to_nat count) f) /\
      flatten chunks = slice_to (Z.to_nat count) f /\
      Forall chunk_ok chunks.
Proof.
  induction rounds as [| rounds IH]; intros f count Hlen; [lia | ].
  cbn [counted].
  destruct (Z.gtb_spec count 0) as [Hpos | Hneg]; cbn [negb].
  2:{ exists []. replace (Z.to_nat count) with 0%nat by lia.
      destruct (Z.leb_spec count (Z.of_nat (String.length f))); [ | lia].
      repeat split. constructor. }
  unfold read.
  set (n := Z.to_nat (Z.min count 65536)).
  assert (Hn : (1 <= n)%nat) by (subst n; lia).
  destruct f as [| c f].
  - (* end of file with bytes still wanted *)
    replace (slice_to n "") with "" by now destruct n.
    cbn [not_]. exists [].
    destruct (Z.leb_spec count (Z.of_nat (String.length ""))) as [Hle | _];
      [cbn in Hle; lia | ].
    cbn [String.length Z.of_nat]. rewrite Z.sub_0_r.
    replace (slice_from n "") with "" by now destruct n.
    replace (slice_from (Z.to_nat count) "") with ""
      by now destruct (Z.to_nat count).
    replace (slice_to (Z.to_nat count) "") with ""
      by now destruct (Z.to_nat count).
    repeat split. constructor.
  - set (g := String c f) in *.
    assert (Hb : not_ (slice_to n g) = false).
    { destruct n; [lia | reflexivity]. }
    rewrite Hb.
    assert (Hk : String.length (slice_to n g) = Nat.min n (String.length g))
      by apply length_slice_to.
    destruct (IH (slice_from n g)
                 (count - Z.of_nat (String.length (slice_to n g)))%Z)
      as (chunks & Hrun & Hcat & Hok).
    { rewrite length_slice_from. subst g. cbn [String.length] in *. lia. }
    rewrite Hrun. exists (slice_to n g :: chunks).
    rewrite length_slice_from in *. rewrite Hk in *.
    destruct (Nat.le_gt_cases n (String.length g)) as [Hfit | Hshort].
    + (* the whole read fits in what is left *)
      replace (Nat.min n (String.length g)) with n in * by lia.
      assert (Hsum : (n + Z.to_nat (count - Z.of_nat n))%nat = Z.to_nat count)
        by (subst n; lia).
      split; [ | split].
      * rewrite slice_from_slice_from_eq, Hsum.
        replace (count - Z.of_nat n - Z.of_nat (String.length g - n))%Z
          with (count - Z.of_nat (String.length g))%Z by lia.
        replace (count - Z.of_nat n <=? Z.of_nat (String.length g - n))%Z
          with (count <=? Z.of_nat (String.length g))%Z; [reflexivity | ].
        destruct (Z.leb_spec (count - Z.of_nat n)
                             (Z.of_nat (String.length g - n)));
          destruct (Z.leb_spec count (Z.of_nat (String.length g)));
          try lia; reflexivity.
      * cbn [flatten fold_right]. fold (flatten chunks).
        rewrite Hcat, slice_to_add, Hsum. reflexivity.
      * constructor; [ | exact Hok]. split.
        -- intros Hempty. rewrite Hempty in Hb. discriminate Hb.
        -- rewrite Hk. subst n. lia.
    + (* the read takes all that is left *)
      replace (Nat.min n (String.length g)) with (String.length g) in * by lia.
      assert (Hcount : (Z.of_nat (String.length g) < count)%Z)
        by (subst n; lia).
      split; [ | split].
      * rewrite slice_from_slice_from_eq.
        rewrite !slice_from_all by lia.
        replace (count - Z.of_nat (String.length g)
                 - Z.of_nat (String.length g - n))%Z
          with (count - Z.of_nat (String.length g))%Z by lia.
        replace (count - Z.of_nat (String.length g)
                 <=? Z.of_nat (String.length g - n))%Z
          with (count <=? Z.of_nat (String.length g))%Z; [reflexivity | ].
        destruct (Z.leb_spec (count - Z.of_nat (String.length g))
                             (Z.of_nat (String.length g - n)));
          destruct (Z.leb_spec count (Z.of_nat (String.length g)));
          try lia; reflexivity.
      * cbn [flatten fold_right]. fold (flatten chunks).
        rewrite Hcat, slice_to_add.
        rewrite !HardWriteMore.slice_to_all by lia. reflexivity.
      * constructor; [ | exact Hok]. split.
        -- intros Hempty. rewrite Hempty in Hb. discriminate Hb.
        -- rewrite Hk. subst n. lia.
Qed.

Lemma uncounted_spec (rounds : nat) :
  forall f : string,
    (String.length f < rounds)%nat ->
    exists chunks,
      uncounted rounds f = (chunks, Stop, "") /\
      flatten chunks = f /\
      Forall chunk_ok chunks.
Proof.
  induction rounds as [| rounds IH]; intros f Hlen; [lia | ].
  cbn [uncounted]. unfold read.
  set (n := Z.to_nat 65536).
  assert (Hn : Z.of_nat n = 65536%Z) by (subst n; lia).
  destruct f as [| c f].
  - replace (slice_to n "") with "" by now destruct n.
    replace (slice_from n "") with "" by now destruct n.
    exists []. repeat split. constructor.
  - set (g := String c f) in *.
    assert (Hb : not_ (slice_to n g) = false).
    { destruct n; [lia | reflexivity]. }
    rewrite Hb.
    destruct (IH (slice_from n g)) as (chunks & Hrun & Hcat & Hok).
    { rewrite length_slice_from. subst g. cbn [String.length] in *. lia. }
    rewrite Hrun. exists (slice_to n g :: chunks).
    split; [reflexivity | split].
    + cbn [flatten fold_right]. fold (flatten chunks).
      rewrite Hcat. apply slice_to_slice_from.
    + constructor; [ | exact Hok]. split.
      * intros Hempty. rewrite Hempty in Hb. discriminate Hb.
      * rewrite length_slice_to. lia.
Qed.

(** X14.  With a [count], [chunkyreader] yields chunks that are never
    empty nor longer than 65536 bytes and that put together are the
    next [count] bytes of the file.  When the file holds that many, the
    generator stops with the file just after them; when it holds fewer,
    all of them are yielded before an [IOError] reports how many bytes
    were still wanted, and a [count] that is not positive yields
    nothing and reads nothing. *)
Theorem chunkyreader_reads_count
        (rounds : nat) (f : string) (count : Z) :
  (String.length f < rounds)%nat ->
  exists chunks,
    flatten chunks = slice_to (Z.to_nat count) f /\
    Forall (fun b => b <> "" /\ (Z.of_nat (String.length b) <= 65536)%Z)
           chunks /\
    ((count <= Z.of_nat (String.length f))%Z ->
     chunkyreader rounds f (Some count)
       = (chunks, Stop, slice_from (Z.to_nat count) f)) /\
    ((Z.of_nat (String.length f) < count)%Z ->
     flatten chunks = f /\
     chunkyreader rounds f (Some count)
       = (chunks,
          Raise (IOError (Msg ("EOF with "
                   ++ str_of_int (count - Z.of_nat (String.length f))
                   ++ " bytes remaining"))),
          "")) /\
    ((count <= 0)%Z -> chunkyreader rounds f (Some count) = ([], Stop, f)).
Proof.
  intros Hlen.
  destruct (counted_spec rounds f count Hlen) as (chunks & Hrun & Hcat & Hok).
  exists chunks. cbn [chunkyreader]. rewrite Hrun.
  split; [exact Hcat | split; [exact Hok | ]].
  split; [ | split].
  - intros Hle.
    now destruct (Z.leb_spec count (Z.of_nat (String.length f))); [ | lia].
  - intros Hlt.
    destruct (Z.leb_spec count (Z.of_nat (String.length f))); [lia | ].
    rewrite slice_from_all by lia.
    split; [ | reflexivity].
    rewrite Hcat. apply HardWriteMore.slice_to_all. lia.
  - intros Hle. rewrite <- Hrun.
    destruct rounds; cbn [counted];
      destruct (Z.gtb_spec count 0); try lia; reflexivity.
Qed.

Lemma chunkyreader_reads_count_witness :
  exists chunks,
    chunkyreader 4 "abc" (Some 5%Z)
      = (chunks, Raise (IOError (Msg "EOF with 2 bytes remaining")), "") /\
    flatten chunks = "abc".
Proof.
  destruct (chunkyreader_reads_count 4 "abc" 5)
    as (chunks & _ & _ & _ & Hshort & _); [cbn; lia | ].
  destruct Hshort as [Hcat Hrun]; [cbn; lia | ].
  exists chunks. split; [exact Hrun | exact Hcat].
Defined.

(** X15.  Without a [count], [chunkyreader] reads to the end of the
    file: the chunks, never empty nor longer than 65536 bytes, put
    together are the whole of what the file had left, and the generator
    stops with the file at its end instead of raising. *)
Theorem chunkyreader_reads_to_the_end (rounds : nat) (f : string) :
  (String.length f < rounds)%nat ->
  exists chunks,
    chunkyreader rounds f None = (chunks, Stop, "") /\
    flatten chunks = f /\
    Forall (fun b => b <> "" /\ (Z.of_nat (String.length b) <= 65536)%Z)
           chunks.
Proof. exact (uncounted_spec rounds f). Qed.

Lemma chunkyreader_reads_to_the_end_witness :
  exists chunks,
    chunkyreader 4 "abc" None = (chunks, Stop, "") /\ flatten chunks = "abc".
Proof.
  destruct (chunkyreader_reads_to_the_end 4 "abc")
    as (chunks & Hrun & Hcat & _); [cbn; lia | ].
  exists chunks. split; [exact Hrun | exact Hcat].
Defined.

End ChunkyFacts.

(** ** Two ends of a connection *)

Module WireFacts.
Import Py StrFacts LinesFacts Conn.
Local Open Scope string_scope.

Local Abbreviation scan onempty f := (for_rl onempty (linereader f) f).
Local Abbreviation lenient := (fun rl : string => @inr exn unit tt).
Local Abbreviation strict :=
  (fun rl : string => @inl exn unit (Exception (MsgExpectedOk rl))).

Lemma of_content_lines (ls : list string) :
  Forall (fun l => one_line l = true) ls ->
  File.of_content (flatten (map (fun l => l ++ File.nl) ls))
  = map (fun l => l ++ File.nl) ls.
Proof.
  induction 1 as [| l ls Hl _ IH]; [reflexivity | ].
  cbn [map flatten fold_right]. fold (flatten (map (fun l => l ++ File.nl) ls)).
  rewrite app_app, of_content_line by exact Hl.
  now rewrite IH.
Qed.

Lemma linereader_lines (ls : list string) :
  map fst (linereader (map (fun l => l ++ File.nl) ls)) = ls.
Proof.
  induction ls as [| l ls IH]; [reflexivity | ].
  cbn [map]. rewrite linereader_line. cbn [map fst]. now rewrite IH.
Qed.

(** X16.  Lines written one after the other, each with its newline,
    come out of [linereader] as they went in: the same lines, blank ones
    included, in the same order, without their newlines. *)
Theorem linereader_yields_the_lines (ls : list string) :
  Forall (fun l => one_line l = true) ls ->
  map fst (linereader
             (File.of_content (flatten (map (fun l => l ++ File.nl) ls))))
  = ls.
Proof.
  intros Hls. rewrite (of_content_lines ls Hls). apply linereader_lines.
Qed.

Lemma linereader_yields_the_lines_witness :
  map fst (linereader
             (File.of_content ("first" ++ File.nl ++ File.nl ++ "ok" ++ File.nl)))
  = ["first"; ""; "ok"].
Proof.
  apply (linereader_yields_the_lines ["first"; ""; "ok"]).
  repeat constructor.
Defined.

Lemma sub_spaces_tidy (b : bool) (s : string) :
  Wire.tidy b (sub_spaces b s) = true.
Proof.
  revert b; induction s as [| c s IH]; intros b; [reflexivity | ].
  cbn [sub_spaces]. destruct (isspace c) eqn:Hc.
  - destruct b; [apply IH | ].
    cbn [Wire.tidy]. change (isspace " ") with true. cbn. apply IH.
  - cbn [Wire.tidy]. rewrite Hc. apply IH.
Qed.

Lemma sub_spaces_of_tidy (b : bool) (s : string) :
  Wire.tidy b s = true -> sub_spaces b s = s.
Proof.
  revert b; induction s as [| c s IH]; intros b Ht; [reflexivity | ].
  cbn [Wire.tidy sub_spaces] in *. destruct (isspace c).
  - apply andb_prop in Ht as [Ht Hs]. apply andb_prop in Ht as [Hc Hb].
    apply Ascii.eqb_eq in Hc. subst c.
    destruct b; [discriminate Hb | ]. now rewrite (IH true Hs).
  - now rewrite (IH false Ht).
Qed.

(** X17.  The message that [error] writes holds whitespace only as
    single spaces, never two in a row; a message that is already so is
    written unchanged, and collapsing twice is collapsing once, so an
    error passed on from one connection to the next arrives as it was
    sent. *)
Theorem error_message_is_tidy
        (O : Type) (HO : File.Out O) (self : Conn.t O) (s : string) :
  Wire.tidy false (re_sub_spaces s) = true /\
  (Wire.tidy false s = true -> re_sub_spaces s = s) /\
  re_sub_spaces (re_sub_spaces s) = re_sub_spaces s /\
  Conn.error (re_sub_spaces s) self = Conn.error s self.
Proof.
  assert (Hidem : re_sub_spaces (re_sub_spaces s) = re_sub_spaces s).
  { apply sub_spaces_of_tidy, sub_spaces_tidy. }
  split; [apply sub_spaces_tidy | ].
  split; [apply sub_spaces_of_tidy | ].
  split; [exact Hidem | ].
  unfold Conn.error. now rewrite Hidem.
Qed.

Section Exchange.
Context {O : Type} {HO : File.Out O}.

Lemma check_ok_run (onempty : string -> exn + unit)
      (self : Conn.t O) (o' : O) :
  File.flush (outp self) = (inr tt, o') ->
  _check_ok onempty self =
    (fst (scan onempty (inp self)),
     Conn.Build (snd (scan onempty (inp self))) o').
Proof.
  intros Hflush. unfold _check_ok, bind, on_outp. rewrite Hflush.
  cbn [inp outp]. now destruct (scan onempty (inp self)).
Qed.

(** X18.  What one side ends a command with, the other side reads as
    such: after [ok()] on a connection with nothing written before, the
    peer that reads what was flushed gets [None] from [_check_ok],
    whichever handler it scans with, and has read all of it. *)
Theorem ok_is_read_as_success
        (srv : Conn.t File.pipe) (cli : Conn.t O) (o' : O)
        (onempty : string -> exn + unit) :
  outp srv = Sample.idle ->
  File.flush (outp cli) = (inr tt, o') ->
  exists srv',
    Conn.ok srv = (inr tt, srv') /\
    (inp cli = Wire.peer_reads srv' ->
     _check_ok onempty cli = (inr None, Conn.Build [] o')).
Proof.
  intros Hfresh Hflush. destruct srv as [i p]. cbn [outp] in Hfresh. subst p.
  eexists. split; [reflexivity | ].
  intros Hinp. rewrite (check_ok_run onempty cli o' Hflush), Hinp.
  reflexivity.
Qed.

(** X19.  After [error(s)] on a connection with nothing written before,
    the peer that reads what was flushed gets from [_check_ok] a
    [NotOk] that carries [s] with its whitespace collapsed.  This holds
    for every [s], with newlines in it or blank or starting like a
    sentinel: the message always arrives as one line. *)
Theorem error_is_read_as_not_ok
        (srv : Conn.t File.pipe) (cli : Conn.t O) (o' : O)
        (onempty : string -> exn + unit) (s : string) :
  outp srv = Sample.idle ->
  File.flush (outp cli) = (inr tt, o') ->
  exists srv',
    Conn.error s srv = (inr tt, srv') /\
    (inp cli = Wire.peer_reads srv' ->
     _check_ok onempty cli
       = (inr (Some (MkNotOk (re_sub_spaces s))), Conn.Build [] o')).
Proof.
  intros Hfresh Hflush. destruct srv as [i p]. cbn [outp] in Hfresh. subst p.
  eexists. split; [reflexivity | ].
  intros Hinp. rewrite (check_ok_run onempty cli o' Hflush), Hinp.
  change (Wire.peer_reads _)
    with (File.of_content
            (File.nl ++ "error " ++ re_sub_spaces s ++ File.nl)).
  rewrite of_content_blank.
  replace ("error " ++ re_sub_spaces s ++ File.nl)
    with (("error " ++ re_sub_spaces s) ++ File.nl ++ "")
    by now rewrite app_app, app_empty_r.
  rewrite of_content_line by exact (sub_spaces_one_line false s).
  rewrite ConnFacts.scan_blank, app_app.
  change (File.of_content "") with (@nil string).
  rewrite ConnFacts.scan_error. reflexivity.
Qed.

Lemma for_rl_strict_lenient (g : list (string * File.input))
      (f : File.input) (r : option NotOk) :
  fst (for_rl strict g f) = inr r ->
  for_rl lenient g f = for_rl strict g f /\
  (r = None -> List.In "ok" (map fst g)).
Proof.
  revert f; induction g as [| [rl f'] g IH]; intros f Hrun.
  - discriminate Hrun.
  - cbn [for_rl map fst] in *.
    destruct (not_ rl).
    { destruct (IH _ Hrun) as [Heq Hok]. split; [exact Heq | ].
      intros Hr. right. now apply Hok. }
    destruct (String.eqb_spec rl "ok") as [-> | Hne].
    { split; [reflexivity | intros _; now left]. }
    destruct (startswith rl "error ").
    + split; [reflexivity | ]. intros ->. discriminate Hrun.
    + discriminate Hrun.
Qed.

(** X20.  The strict scan is the lenient scan with a veto: whenever
    [check_ok] returns, with [None] or with a [NotOk],
    [drain_and_check_ok] on the same connection returns the same value
    and leaves the same input unread; and [None] is returned only when
    a line ['ok'] was read. *)
Theorem strict_result_is_lenient_result
        (self : Conn.t O) (r : option NotOk) :
  fst (check_ok self) = inr r ->
  drain_and_check_ok self = check_ok self /\
  (r = None -> List.In "ok" (map fst (linereader (inp self)))).
Proof.
  unfold drain_and_check_ok, check_ok, _check_ok, bind, on_outp. cbv zeta.
  destruct (File.flush (outp self)) as [[e | []] o']; cbn [inp outp].
  - discriminate.
  - destruct (scan strict (inp self)) as [res f] eqn:Hscan.
    cbn [fst]. intros ->.
    destruct (for_rl_strict_lenient (linereader (inp self)) (inp self) r)
      as [Heq Hok]; [now rewrite Hscan | ].
    rewrite Heq, Hscan. split; [reflexivity | exact Hok].
Qed.

End Exchange.

Lemma ok_is_read_as_success_witness :
  exists srv',
    Conn.ok (Sample.reading "") = (inr tt, srv') /\
    check_ok (Conn.Build (Wire.peer_reads srv') Sample.idle)
      = (inr None, Conn.Build [] Sample.idle).
Proof.
  destruct (ok_is_read_as_success
              (Sample.reading "")
              (Conn.Build (File.of_content (File.nl ++ "ok" ++ File.nl))
                          Sample.idle)
              Sample.idle strict)
    as (srv' & Hok & Hread); [reflexivity | reflexivity | ].
  exists srv'. split; [exact Hok | ].
  injection Hok as <-. exact (Hread eq_refl).
Defined.

Lemma error_is_read_as_not_ok_witness :
  let s := "disk" ++ File.nl ++ "  full" in
  exists srv',
    Conn.error s (Sample.reading "") = (inr tt, srv') /\
    check_ok (Conn.Build (Wire.peer_reads srv') Sample.idle)
      = (inr (Some (MkNotOk "disk full")), Conn.Build [] Sample.idle).
Proof.
  cbv zeta.
  destruct (error_is_read_as_not_ok
              (Sample.reading "")
              (Conn.Build
                 (File.of_content (File.nl ++ "error disk full" ++ File.nl))
                 Sample.idle)
              Sample.idle strict ("disk" ++ File.nl ++ "  full"))
    as (srv' & Herr & Hread); [reflexivity | reflexivity | ].
  exists srv'. split; [exact Herr | ].
  injection Herr as <-. exact (Hread eq_refl).
Defined.

Lemma strict_result_is_lenient_result_witness :
  let self := Sample.reading (File.nl ++ "error disk full" ++ File.nl) in
  drain_and_check_ok self = check_ok self.
Proof.
  cbv zeta.
  apply (strict_result_is_lenient_result
           (Sample.reading (File.nl ++ "error disk full" ++ File.nl))
           (Some (MkNotOk "disk full"))).
  reflexivity.
Defined.

End WireFacts.

(** ** columnate *)

Module ColumnsFacts.
Import Py PyStr Columns StrFacts.
Local Open Scope string_scope.

Lemma max_len_bound (l : list string) :
  Forall (fun s => (String.length s <= max_len l)%nat) l.
Proof.
  induction l as [| s l IH]; [constructor | ].
  cbn [max_len fold_right]. fold (max_len l). constructor; [lia | ].
  eapply Forall_impl; [ | exact IH]. cbn. intros x Hx. lia.
Qed.

(** The loop stops after fewer than [ncols] rounds, with a list whose
    length is a multiple of [ncols]. *)
Lemma pad_loop_spec (ncols : nat) :
  (0 < ncols)%nat ->
  forall rounds l,
    (List.length l mod ncols = 0 \/
     ncols - List.length l mod ncols <= rounds)%nat ->
    exists j,
      pad_loop rounds ncols l = (l ++ repeat "" j)%list /\
      ((List.length l + j) mod ncols = 0)%nat /\
      (j < ncols)%nat.
Proof.
  intros Hn. induction rounds as [| rounds IH]; intros l Hfuel.
  - assert (Hz : (List.length l mod ncols = 0)%nat).
    { pose proof (Nat.mod_upper_bound (List.length l) ncols ltac:(lia)). lia. }
    exists 0%nat. cbn [pad_loop]. rewrite Hz. cbn.
    rewrite app_nil_r, Nat.add_0_r. repeat split; [exact Hz | exact Hn].
  - cbn [pad_loop].
    destruct (Nat.eqb_spec (List.length l mod ncols) 0) as [Hz | Hnz].
    + exists 0%nat. cbn. rewrite app_nil_r, Nat.add_0_r.
      repeat split; [exact Hz | exact Hn].
    + pose proof (Nat.mod_upper_bound (List.length l) ncols ltac:(lia)) as Hr.
      pose proof (Nat.div_mod_eq (List.length l) ncols) as Hdm.
      set (q := (List.length l / ncols)%nat) in *.
      set (r := (List.length l mod ncols)%nat) in *.
      assert (Hnext : (List.length (l ++ [""]) mod ncols
                       = if (S r =? ncols)%nat then 0 else S r)%nat).
      { rewrite length_app. cbn [List.length].
        destruct (Nat.eqb_spec (S r) ncols) as [Hfull | Hpart].
        - symmetry. apply (Nat.mod_unique _ _ (S q)); [lia | nia].
        - symmetry. apply (Nat.mod_unique _ _ q); [lia | nia]. }
      destruct (IH (l ++ [""])%list) as (j & Hrun & Hmod & Hj).
      { rewrite Hnext. destruct (Nat.eqb_spec (S r) ncols); [now left | right].
        destruct Hfuel as [Hz | Hfuel]; [contradiction | lia]. }
      destruct (Nat.eqb_spec (S r) ncols) as [Hfull | Hpart].
      * (* one more string completes the last row *)
        exists 1%nat.
        replace (pad_loop rounds ncols (l ++ [""]))
          with (l ++ [""])%list.
        -- repeat split; [ | lia].
           rewrite length_app in Hnext. exact Hnext.
        -- destruct rounds; cbn [pad_loop]; now rewrite Hnext.
      * exists (S j). rewrite Hrun. cbn [repeat].
        rewrite <- app_assoc. cbn [List.app]. split; [reflexivity | ].
        rewrite length_app in Hmod. cbn [List.length] in Hmod.
        replace (List.length l + S j)%nat
          with (List.length l + 1 + j)%nat by lia.
        split; [exact Hmod | ].
        (* fewer than [ncols - r] strings are appended *)
        destruct (Nat.eq_dec (S j) ncols) as [Hbad | Hok]; [ | lia].
        exfalso.
        assert (Hrem : ((List.length l + 1 + j) mod ncols = r)%nat).
        { symmetry. apply (Nat.mod_unique _ _ (S q)); [lia | nia]. }
        lia.
Qed.

Lemma range_loop_spec (step : nat) :
  (0 < step)%nat ->
  forall k bound start,
    (k <= bound)%nat ->
    range_loop bound start (start + k * step) step
    = map (fun i => (start + i * step)%nat) (seq 0 k).
Proof.
  intros Hstep. induction k as [| k IH]; intros bound start Hk.
  - cbn [Nat.mul seq map]. rewrite Nat.add_0_r.
    destruct bound; cbn [range_loop]; [reflexivity | ].
    now rewrite Nat.ltb_irrefl.
  - destruct bound as [| bound]; [lia | ].
    cbn [range_loop].
    destruct (Nat.ltb_spec start (start + S k * step)) as [_ | Hge];
      [ | nia].
    cbn [seq map]. rewrite Nat.add_0_r. f_equal.
    replace (start + S k * step)%nat with (start + step + k * step)%nat
      by lia.
    rewrite IH by lia.
    rewrite <- seq_shift, map_map.
    apply map_ext. intros i. lia.
Qed.

Lemma Forall_firstn_keeps {A : Type} (P : A -> Prop) (n : nat) (l : list A) :
  Forall P l -> Forall P (firstn n l).
Proof.
  revert l; induction n as [| n IH]; intros l Hl; [constructor | ].
  destruct Hl as [| x l Hx Hl]; cbn; constructor; auto.
Qed.

Lemma Forall_skipn_keeps {A : Type} (P : A -> Prop) (n : nat) (l : list A) :
  Forall P l -> Forall P (skipn n l).
Proof.
  revert l; induction n as [| n IH]; intros l Hl; [exact Hl | ].
  destruct Hl as [| x l Hx Hl]; cbn; [constructor | auto].
Qed.

(** Every row of the zip has one cell for each sequence, and there are
    as many rows as the first sequence is long when no other sequence is
    shorter. *)
Lemma zip_loop_spec (P : string -> Prop) :
  P "" ->
  forall first others,
    Forall P first ->
    Forall (Forall P) others ->
    Forall (fun c => List.length first <= List.length c)%nat others ->
    List.length (zip_loop first others) = List.length first /\
    Forall (fun row => List.length row = S (List.length others) /\
                       Forall P row)
           (zip_loop first others).
Proof.
  intros Hdef. induction first as [| x first IH];
    intros others Hfirst Hothers Hlen.
  - split; [reflexivity | constructor].
  - cbn [zip_loop].
    assert (Hne : forallb nonempty others = true).
    { apply forallb_forall. intros c Hc.
      rewrite Forall_forall in Hlen. specialize (Hlen c Hc).
      destruct c; [cbn in Hlen; lia | reflexivity]. }
    rewrite Hne.
    inversion Hfirst as [| ? ? Hx Hrest]; subst.
    destruct (IH (map (@tl string) others) Hrest) as [Hcount Hrows].
    + apply Forall_map. eapply Forall_impl; [ | exact Hothers].
      intros c Hc. destruct Hc; [constructor | assumption].
    + apply Forall_map. eapply Forall_impl; [ | exact Hlen].
      intros c Hc. destruct c; cbn in *; lia.
    + split; [cbn [List.length]; now rewrite Hcount | ].
      constructor.
      * split; [cbn [List.length]; now rewrite length_map | ].
        constructor; [exact Hx | ].
        apply Forall_map. eapply Forall_impl; [ | exact Hothers].
        intros c Hc. destruct Hc; [exact Hdef | assumption].
      * rewrite length_map in Hrows. exact Hrows.
Qed.

Lemma fold_left_lines (f : list string -> string) (rs : list (list string))
      (out : string) :
  fold_left (fun out row => out ++ f row) rs out = out ++ flatten (map f rs).
Proof.
  revert out; induction rs as [| row rs IH]; intros out; cbn [fold_left].
  - cbn. now rewrite app_empty_r.
  - rewrite IH, app_app. reflexivity.
Qed.

Lemma length_cells (width : nat) (row : list string) :
  Forall (fun s => (String.length s <= width)%nat) row ->
  String.length (flatten (map (ljust width) row))
  = (List.length row * width)%nat.
Proof.
  induction 1 as [| s row Hs _ IH]; [reflexivity | ].
  cbn [map flatten fold_right List.length].
  fold (flatten (map (ljust width) row)).
  rewrite LogFacts.length_append, LogFacts.length_ljust, IH. lia.
Qed.

Lemma length_slice (s e : nat) (l : list string) :
  List.length (slice s e l) = Nat.min (e - s) (List.length l - s).
Proof. unfold slice. now rewrite length_firstn, length_skipn. Qed.

Lemma Forall_slice (P : string -> Prop) (s e : nat) (l : list string) :
  Forall P l -> Forall P (slice s e l).
Proof.
  intros Hl. unfold slice.
  now apply Forall_firstn_keeps, Forall_skipn_keeps.
Qed.

(** The table that [columnate] lays out once it has chosen the number
    of columns [nc] and the width [w] of a cell. *)
Lemma table_spec (nc w : nat) (prefix : string) (l : list string) :
  (0 < nc)%nat ->
  l <> [] ->
  exists rs,
    (let l' := pad_loop nc nc l in
     let rows := (List.length l' / nc)%nat in
     match range (List.length l') rows with
     | inl e => inl e
     | inr starts =>
         inr (fold_left (fun out row => out ++ line prefix w row)
                (zip_star (map (fun s => slice s (s + rows) l') starts)) "")
     end)
    = inr (flatten (map (line prefix w) rs)) /\
    List.length rs = ((List.length l + nc - 1) / nc)%nat /\
    Forall (fun row => List.length row = nc /\
                       Forall (fun s => List.In s l \/ s = "") row) rs.
Proof.
  intros Hnc Hl. cbv zeta.
  destruct (pad_loop_spec nc Hnc nc l) as (j & Hpad & Hmod & Hj); [lia | ].
  rewrite Hpad. set (l' := (l ++ repeat "" j)%list).
  assert (Hm : List.length l' = (List.length l + j)%nat).
  { subst l'. now rewrite length_app, repeat_length. }
  assert (Hexact : List.length l' = (nc * (List.length l' / nc))%nat).
  { apply Nat.Div0.div_exact. rewrite Hm. exact Hmod. }
  assert (Hpos : (0 < List.length l)%nat).
  { destruct l; [congruence | cbn; lia]. }
  set (P := fun s : string => List.In s l \/ s = "").
  assert (HP : Forall P l').
  { subst l'. apply Forall_app. split.
    - apply Forall_forall. intros x Hx. now left.
    - apply Forall_forall. intros x Hx. right.
      now apply repeat_spec in Hx. }
  destruct (List.length l' / nc)%nat as [| r] eqn:Hrows; [lia | ].
  unfold range. cbv beta iota.
  set (rows := S r) in *.
  assert (Hstarts : range_loop (List.length l') 0 (List.length l') rows
                    = map (fun i => (0 + i * rows)%nat) (seq 0 nc)).
  { rewrite Hexact at 2.
    replace (nc * rows)%nat with (0 + nc * rows)%nat by lia.
    apply range_loop_spec; [subst rows; lia | nia]. }
  rewrite Hstarts, map_map.
  destruct nc as [| k]; [lia | ].
  cbn [seq map zip_star].
  set (first := slice (0 + 0 * rows) (0 + 0 * rows + rows) l').
  set (others := map (fun i => slice (0 + i * rows) (0 + i * rows + rows) l')
                     (seq 1 k)).
  assert (Hfirst : List.length first = rows).
  { subst first. rewrite length_slice. nia. }
  destruct (zip_loop_spec P (or_intror eq_refl) first others)
    as [Hcount Hrs].
  - now apply Forall_slice.
  - subst others. apply Forall_map, Forall_forall. intros i _.
    now apply Forall_slice.
  - subst others. apply Forall_map, Forall_forall. intros i Hi.
    apply in_seq in Hi. rewrite Hfirst, length_slice. nia.
  - exists (zip_loop first others).
    split; [ | split].
    + now rewrite fold_left_lines.
    + rewrite Hcount, Hfirst.
      apply (Nat.div_unique _ _ _ (S k - 1 - j)); [lia | nia].
    + eapply Forall_impl; [ | exact Hrs].
      intros row [Hlen Hrow]. split; [ | exact Hrow].
      rewrite Hlen. subst others. now rewrite length_map, length_seq.
Qed.

Lemma zip_loop_alone (first : list string) :
  zip_loop first [] = map (fun x => [x]) first.
Proof.
  induction first as [| x first IH]; [reflexivity | ].
  cbn [zip_loop forallb map]. now rewrite IH.
Qed.

(** X21.  When fewer than two columns fit in the terminal,
    [columnate] writes one element per line, in the order of the list:
    the prefix, the element padded to two columns only, and a newline.
    An empty list gives the empty string. *)
Theorem columnate_narrow_is_one_per_line
        (tty_width : Z) (l : list string) (prefix : string) :
  ((tty_width - Z.of_nat (String.length prefix))
     / (Z.of_nat (max_len l) + 2) <= 1)%Z ->
  columnate tty_width l prefix
  = inr (flatten (map (fun s => prefix ++ ljust 2 s ++ File.nl) l)) /\
  columnate tty_width [] prefix = inr "".
Proof.
  intros Hnarrow. split; [ | reflexivity].
  destruct l as [| x l]; [reflexivity | ].
  unfold columnate. set (g := x :: l) in *. cbv zeta.
  destruct (Z.leb_spec ((tty_width - Z.of_nat (String.length prefix))
                          / (Z.of_nat (max_len g) + 2)) 1) as [_ | Hwide];
    [ | lia].
  change (Z.to_nat 1) with 1%nat. change (Z.to_nat (0 + 2)) with 2%nat.
  assert (Hpad : pad_loop 1 1 g = g).
  { cbn [pad_loop]. now rewrite Nat.mod_1_r. }
  rewrite Hpad, Nat.div_1_r.
  assert (Hrange : range (List.length g) (List.length g) = inr [0%nat]).
  { subst g. cbn [List.length range range_loop].
    rewrite (proj2 (Nat.ltb_lt 0 (S (List.length l)))) by lia.
    f_equal. f_equal. destruct (List.length l); cbn [range_loop];
      [reflexivity | ].
    now rewrite Nat.ltb_irrefl. }
  rewrite Hrange. cbn [map zip_star].
  assert (Hcol : slice 0 (0 + List.length g) g = g).
  { unfold slice. cbn [skipn Nat.add]. rewrite Nat.sub_0_r.
    apply firstn_all. }
  rewrite Hcol, zip_loop_alone, fold_left_lines, map_map.
  cbn [append]. do 2 f_equal.
  apply map_ext. intros s. unfold line. cbn [map flatten fold_right].
  now rewrite app_empty_r.
Qed.

Lemma columnate_narrow_is_one_per_line_witness :
  columnate 3 ["a"; "bb"; "ccc"] "> "
  = inr ("> a " ++ File.nl ++ "> bb" ++ File.nl ++ "> ccc" ++ File.nl).
Proof.
  apply (proj1 (columnate_narrow_is_one_per_line 3 ["a"; "bb"; "ccc"] "> "
                  ltac:(cbn; lia))).
Defined.

(** X22.  When at least two columns fit, [columnate] never raises and
    writes a table of [ceil(len(l) / ncols)] lines, each ended by a
    newline.  Every line starts with the prefix and is exactly
    [len(prefix) + ncols * (clen + 2)] characters wide, which is at most
    the width of the terminal. *)
Theorem columnate_fits_the_terminal
        (tty_width : Z) (l : list string) (prefix : string) :
  let clen := Z.of_nat (max_len l) in
  let ncols :=
    ((tty_width - Z.of_nat (String.length prefix)) / (clen + 2))%Z in
  l <> [] ->
  (2 <= ncols)%Z ->
  exists bodies,
    columnate tty_width l prefix
      = inr (flatten (map (fun b => b ++ File.nl) bodies)) /\
    Z.of_nat (List.length bodies)
      = ((Z.of_nat (List.length l) + ncols - 1) / ncols)%Z /\
    Forall (fun b =>
              startswith b prefix = true /\
              Z.of_nat (String.length b)
                = (Z.of_nat (String.length prefix) + ncols * (clen + 2))%Z /\
              (Z.of_nat (String.length b) <= tty_width)%Z)
           bodies.
Proof.
  intros clen ncols Hl Hwide.
  set (w := Z.to_nat (clen + 2)).
  set (nc := Z.to_nat ncols).
  destruct (table_spec nc w prefix l ltac:(subst nc; lia) Hl)
    as (rs & Hrun & Hcount & Hrows).
  exists (map (fun row => prefix ++ flatten (map (ljust w) row)) rs).
  split; [ | split].
  - destruct l as [| x l0]; [congruence | ].
    unfold columnate. set (g := x :: l0) in *. cbv zeta.
    fold clen. fold ncols.
    destruct (Z.leb_spec ncols 1) as [Hnarrow | _]; [lia | ].
    fold nc. fold w. cbv zeta in Hrun. rewrite Hrun.
    rewrite map_map. do 2 f_equal.
    apply map_ext. intros row. unfold line. now rewrite app_app.
  - rewrite length_map, Hcount.
    rewrite Nat2Z.inj_div, Nat2Z.inj_sub, Nat2Z.inj_add by lia.
    subst nc. rewrite Z2Nat.id by lia. reflexivity.
  - apply Forall_map. eapply Forall_impl; [ | exact Hrows].
    intros row [Hlen Hcells].
    assert (Hcell : Forall (fun s => (String.length s <= w)%nat) row).
    { eapply Forall_impl; [ | exact Hcells].
      intros s [Hin | ->]; [ | cbn; lia].
      pose proof (max_len_bound l) as Hmax.
      rewrite Forall_forall in Hmax. specialize (Hmax s Hin).
      subst w clen. lia. }
    assert (Hwidth : Z.of_nat (String.length
                       (prefix ++ flatten (map (ljust w) row)))
                     = (Z.of_nat (String.length prefix)
                        + ncols * (clen + 2))%Z).
    { rewrite LogFacts.length_append, (length_cells w row Hcell), Hlen.
      subst nc w. rewrite Nat2Z.inj_add, Nat2Z.inj_mul.
      rewrite !Z2Nat.id by (subst clen; lia). reflexivity. }
    split; [apply startswith_app | ].
    split; [exact Hwidth | ].
    rewrite Hwidth.
    pose proof (Z.mul_div_le
                  (tty_width - Z.of_nat (String.length prefix))
                  (clen + 2) ltac:(subst clen; lia)) as Hfloor.
    fold ncols in Hfloor. lia.
Qed.

Lemma columnate_fits_the_terminal_witness :
  exists bodies,
    columnate 12 ["a"; "bb"; "ccc"; "d"; "e"; "f"; "g"] ""
      = inr (flatten (map (fun b => b ++ File.nl) bodies)) /\
    List.length bodies = 4%nat /\
    Forall (fun b => String.length b = 10%nat) bodies.
Proof.
  destruct (columnate_fits_the_terminal
              12 ["a"; "bb"; "ccc"; "d"; "e"; "f"; "g"] "")
    as (bodies & Hrun & Hcount & Hfit).
  - discriminate.
  - cbn. lia.
  - exists bodies. split; [exact Hrun | split].
    + match type of Hcount with
      | _ = ?rhs => assert (Hval : rhs = 4%Z) by reflexivity
      end.
      rewrite Hval in Hcount. lia.
    + eapply Forall_impl; [ | exact Hfit].
      intros b (_ & Hw & _).
      match type of Hw with
      | _ = ?rhs => assert (Hval : rhs = 10%Z) by reflexivity
      end.
      rewrite Hval in Hw. lia.
Defined.

End ColumnsFacts.
